(** * PyElastica: system registry, contact module and symplectic steppers

    A shallow embedding of

      - [elastica/modules/base_system.py]   (the system registry),
      - [elastica/modules/contact.py]       (the contact module),
      - [elastica/timestepper/symplectic_steppers.py] (the steppers),

    followed by the properties of these programs that the specification
    states.  Python objects that are mutated in place are kept in explicit
    state; a Python exception is a [Raise] result that carries the state
    reached when it was raised. *)

From Stdlib Require Import String.
From Stdlib Require Import List ZArith QArith Qround Qabs Bool Lia Lra.
From Stdlib Require Import SpecFloat.
From Stdlib Require Import Morphisms Setoid RelationClasses.
Import ListNotations.

Set Implicit Arguments.

(* ================================================================== *)
(** * Python: exceptions, stateful computations, list primitives       *)
(* ================================================================== *)

Module Py.

(** The exception classes the sources raise or let escape. *)
Inductive exn : Type :=
| AssertionError
| TypeError
| RuntimeError
| ValueError
| IndexError
| AttributeError
| ZeroDivisionError
| OverflowError.

Inductive result (A : Type) : Type :=
| Return (a : A)
| Raise (e : exn).
Arguments Return {A} a.
Arguments Raise {A} e.

(** A method body: runs on a state, returns or raises, and leaves the
    state it reached (mutations made before a raise are kept). *)
Definition M (S A : Type) : Type := S -> result A * S.

Definition ret {S A : Type} (a : A) : M S A := fun s => (Return a, s).
Definition raise {S A : Type} (e : exn) : M S A := fun s => (Raise e, s).
Definition bind {S A B : Type} (c : M S A) (k : A -> M S B) : M S B :=
  fun s =>
    match c s with
    | (Return a, s') => k a s'
    | (Raise e, s') => (Raise e, s')
    end.
Definition get {S : Type} : M S S := fun s => (Return s, s).
Definition modify {S : Type} (f : S -> S) : M S unit := fun s => (Return tt, f s).

(** [assert cond] *)
Definition assert {S : Type} (cond : bool) : M S unit :=
  if cond then ret tt else raise AssertionError.

(** [for x in l: body(x)] *)
Fixpoint for_each {S A : Type} (l : list A) (body : A -> M S unit) : M S unit :=
  match l with
  | [] => ret tt
  | x :: l' => bind (body x) (fun _ => for_each l' body)
  end.

(** The relation [R] holds between the state before and the state after
    the computation [c], whether it returns or raises. *)
Definition preserves_from {S A : Type} (R : S -> S -> Prop) (s : S) (c : M S A)
  : Prop :=
  forall res s', c s = (res, s') -> R s s'.
Definition preserves {S A : Type} (R : S -> S -> Prop) (c : M S A) : Prop :=
  forall s, preserves_from R s c.

(** The computation [c] does not change the state. *)
Definition pure {S A : Type} (c : M S A) : Prop :=
  forall s res s', c s = (res, s') -> s' = s.

(** Two computations that behave alike on every state. *)
Definition meq {S A : Type} (c d : M S A) : Prop := forall s, c s = d s.

Definition is_raise {A : Type} (r : result A) : bool :=
  match r with Raise _ => true | Return _ => false end.

(** ** Lists *)

Section Lists.
Context {A : Type}.

(** Position denoted by the index [i] of a list of length [n];
    negative indices count from the end.  [None]: out of range. *)
Definition norm_index (n : nat) (i : Z) : option nat :=
  if ((0 <=? i) && (i <? Z.of_nat n))%Z then Some (Z.to_nat i)
  else if ((- Z.of_nat n <=? i) && (i <? 0))%Z then Some (Z.to_nat (Z.of_nat n + i))
  else None.

(** [l[i]] ([None] stands for IndexError) *)
Definition getitem (l : list A) (i : Z) : option A :=
  match norm_index (length l) i with
  | Some k => nth_error l k
  | None => None
  end.

Fixpoint replace_nth (l : list A) (k : nat) (x : A) : list A :=
  match l, k with
  | [], _ => []
  | _ :: l', O => x :: l'
  | y :: l', S k' => y :: replace_nth l' k' x
  end.

(** [l[i] = x] *)
Definition setitem (l : list A) (i : Z) (x : A) : option (list A) :=
  match norm_index (length l) i with
  | Some k => Some (replace_nth l k x)
  | None => None
  end.

(** [del l[i]] *)
Definition delitem (l : list A) (i : Z) : option (list A) :=
  match norm_index (length l) i with
  | Some k => Some (firstn k l ++ skipn (S k) l)
  | None => None
  end.

(** [l.insert(i, x)]: never fails, the position is clamped. *)
Definition list_insert (l : list A) (i : Z) (x : A) : list A :=
  let n := Z.of_nat (length l) in
  let i1 := if (i <? 0)%Z then (i + n)%Z else i in
  let i2 := if (i1 <? 0)%Z then 0%Z else i1 in
  let i3 := if (n <? i2)%Z then n else i2 in
  firstn (Z.to_nat i3) l ++ x :: skipn (Z.to_nat i3) l.

(** [l.index(x)] for an equality test [eqb]; [None] stands for ValueError. *)
Fixpoint list_index (eqb : A -> A -> bool) (l : list A) (x : A) : option nat :=
  match l with
  | [] => None
  | y :: l' => if eqb y x then Some O
               else option_map S (list_index eqb l' x)
  end.

(** [l[-2::-1]]: the list without its last element, reversed
    (empty for lists of length 0 and 1). *)
Definition slice_m2_rev (l : list A) : list A := rev (removelast l).

(** [l[::2]] and [l[1::2]] *)
Fixpoint slice_even (l : list A) : list A :=
  match l with
  | [] => []
  | x :: l' => x :: match l' with [] => [] | _ :: l'' => slice_even l'' end
  end.
Definition slice_odd (l : list A) : list A :=
  match l with [] => [] | _ :: l' => slice_even l' end.

(** [l[:-1]] is [removelast l]; [l[-1]] is [getitem l (-1)]. *)
End Lists.

(** [zip_longest(a, b, c, fillvalue=f)]: as long as the longest argument,
    entry [k] holding the [k]-th element of each list; a missing element
    is the fill value, here [None]. *)
Definition zip_longest {A B C : Type} (a : list A) (b : list B) (c : list C)
  : list (option A * option B * option C) :=
  map (fun k => (nth_error a k, nth_error b k, nth_error c k))
      (seq 0 (Nat.max (length a) (Nat.max (length b) (length c)))).

End Py.

Import Py.

Declare Scope py_scope.
Delimit Scope py_scope with py.
Notation "x <- c ;; k" := (bind c (fun x => k))
  (at level 61, c at next level, right associativity) : py_scope.
Notation "c ;; k" := (bind c (fun _ => k))
  (at level 61, right associativity) : py_scope.
Open Scope py_scope.

(* ================================================================== *)
(** * Scalars ([np.floating])                                          *)
(* ================================================================== *)

(** The arithmetic the steppers use on times, time steps and prefactors.
    [lit m e] is the decimal literal [m]e[e], that is [m * 10^e];
    [round_div x y] is [round(x / y)]. *)
Class Scalar (T : Type) : Type := {
  lit : Z -> Z -> T;
  neg : T -> T;
  add : T -> T -> T;
  sub : T -> T -> T;
  mul : T -> T -> T;
  round_div : T -> T -> result Z
}.

(** ** Exact arithmetic: the rationals *)

(** [round(q)]: to the nearest integer, ties to the even one. *)
Definition Qround_half_even (q : Q) : Z :=
  let f := Qfloor q in
  match Qcompare (q - inject_Z f) (1 # 2) with
  | Lt => f
  | Gt => (f + 1)%Z
  | Eq => if Z.even f then f else (f + 1)%Z
  end.

Definition Qlit (m e : Z) : Q :=
  if (0 <=? e)%Z then inject_Z (m * 10 ^ e) else Qmake m (Z.to_pos (10 ^ (- e))).

#[export] Instance Q_Scalar : Scalar Q := {
  lit := Qlit;
  neg := Qopp;
  add := Qplus;
  sub := Qminus;
  mul := Qmult;
  round_div x y :=
    if Qeq_bool y 0 then Raise ZeroDivisionError
    else Return (Qround_half_even (x / y))
}.

(** ** IEEE 754 binary64: [np.float64] *)

Module Float64.

Definition prec : Z := 53.
Definition emax : Z := 1024.

Definition float64 : Type := spec_float.

Definition of_Z (m : Z) : float64 := binary_normalize prec emax m 0 false.

(** A decimal literal.  Correctly rounded when [m] and the power of ten
    are themselves binary64 numbers ([|m| < 2^53], [|e| <= 22]), which
    covers every literal of the sources. *)
Definition flit (m e : Z) : float64 :=
  if (0 <=? e)%Z then SFmul prec emax (of_Z m) (of_Z (10 ^ e))
  else SFdiv prec emax (of_Z m) (of_Z (10 ^ (- e))).

(** The rational a finite binary64 number denotes. *)
Definition to_Q (x : float64) : Q :=
  match x with
  | S754_finite s m e =>
      let z := if s then Z.neg m else Z.pos m in
      if (0 <=? e)%Z then inject_Z (z * 2 ^ e) else Qmake z (Z.to_pos (2 ^ (- e)))
  | _ => 0
  end.

(** [round(x)] on a float: ties to even; infinities and NaN raise. *)
Definition fround (x : float64) : result Z :=
  match x with
  | S754_nan => Raise ValueError
  | S754_infinity _ => Raise OverflowError
  | S754_zero _ => Return 0%Z
  | S754_finite _ _ _ => Return (Qround_half_even (to_Q x))
  end.

#[export] Instance Float64_Scalar : Scalar float64 := {
  lit := flit;
  neg := SFopp;
  add := SFadd prec emax;
  sub := SFsub prec emax;
  mul := SFmul prec emax;
  round_div x y := fround (SFdiv prec emax x y)
}.

End Float64.

(* ================================================================== *)
(** * Python objects: classes and simulated systems                    *)
(* ================================================================== *)

(** A class, by its name and the names along its method resolution order
    (the class itself first). *)
Record PyClass : Type := {
  cls_name : string;
  cls_mro : list string
}.

(** [issubclass(c, d)] and [issubclass(c, (d1, ..., dn))] *)
Definition issubclass (c d : PyClass) : bool :=
  existsb (String.eqb (cls_name d)) (cls_mro c).
Definition issubclass_any (c : PyClass) (ds : list PyClass) : bool :=
  existsb (issubclass c) ds.

(** The metaclass of every class of the sources. *)
Definition type_class : PyClass :=
  {| cls_name := "type"; cls_mro := ["type"; "object"]%string |}.

(** [isinstance(c, d)] where the first argument is itself a class object:
    its own class is the metaclass [type]. *)
Definition isinstance_of_class_object (c d : PyClass) : bool :=
  issubclass type_class d.

(** A simulated system (rod, rigid body, surface or aggregated block): an
    object with an identity, a class, and the modules it asks of the
    simulator ([getattr(sys, "REQUISITE_MODULES", [])]).  Its arrays live in
    the entity state the external collaborators work on. *)
Record SysObj : Type := {
  oid : nat;
  sys_class : PyClass;
  REQUISITE_MODULES : list PyClass
}.

(** Objects without [__eq__] compare by identity. *)
Definition same_object (a b : SysObj) : bool := Nat.eqb (oid a) (oid b).

(* ================================================================== *)
(** * elastica/timestepper/symplectic_steppers.py                      *)
(* ================================================================== *)

Module Steppers.
Section Engine.

(** The scalar type, and the state of the simulated entities: what
    blocks, constraints, forcing and callbacks read and write. *)
Variable T : Type.
Context {ScalarT : Scalar T}.
Variable H : Type.

(** What the steppers call on a block.  The two [numba] operators are
    imported from [elastica.rod.data_structures]:
    [overload_operator_kinematic_numba sys prefac] stands for the call
    with [sys]'s position, director, velocity and omega collections, and
    [overload_operator_dynamic_numba sys time prefac] for the call with
    [sys]'s rate collection and [sys.dynamic_rates(time, prefac)]. *)
Class SymplecticSystemProtocol : Type := {
  update_internal_forces_and_torques : SysObj -> T -> M H unit;
  reset_external_forces_and_torques : SysObj -> T -> M H unit;
  overload_operator_kinematic_numba : SysObj -> T -> M H unit;
  overload_operator_dynamic_numba : SysObj -> T -> T -> M H unit
}.

(** What the steppers call on the system collection. *)
Record SystemCollectionType : Type := {
  _memory_blocks : list SysObj;
  constrain_values : T -> M H unit;
  synchronize : T -> M H unit;
  constrain_rates : T -> M H unit;
  apply_callbacks : T -> Z -> M H unit
}.

Context {Blocks : SymplecticSystemProtocol}.

(** A step method [(System, time, dt) -> None] and a prefactor method
    [dt -> float] of a stepper. *)
Definition StepFn : Type := SysObj -> T -> T -> M H unit.
Definition PrefactorFn : Type := T -> T.

(** One entry of [steps_and_prefactors]; [None] is the fill value
    [no_operation]. *)
Definition Stage : Type := (option PrefactorFn * option StepFn * option StepFn)%type.

(** The two methods a concrete stepper class defines. *)
Record StepperClass : Type := {
  get_steps : list StepFn;
  get_prefactors : list PrefactorFn
}.

(** [SymplecticStepperMixin.step_methods] *)
Definition step_methods (self : StepperClass) : result (list Stage) :=
  let _steps := get_steps self in
  let _steps := _steps ++ slice_m2_rev _steps in
  let _prefactors := get_prefactors self in
  let _prefactors := _prefactors ++ slice_m2_rev _prefactors in
  if (Z.of_nat (length _steps) =? 2 * Z.of_nat (length _prefactors) - 1)%Z then
    let _kinematic_steps := slice_even _steps in
    let _dynamic_steps := slice_odd _steps in
    Return (zip_longest _prefactors _kinematic_steps _dynamic_steps)
  else Raise AssertionError.

(** A constructed stepper: [__init__] stores [step_methods()]. *)
Record Stepper : Type := { steps_and_prefactors : list Stage }.

Definition init (cls : StepperClass) : result Stepper :=
  match step_methods cls with
  | Return s => Return {| steps_and_prefactors := s |}
  | Raise e => Raise e
  end.

Definition n_stages (self : Stepper) : nat := length (steps_and_prefactors self).

(** Calling a bound method that takes [arity] positional arguments (the
    bound [self] not counted) with [nargs] positional arguments: Python
    binds the arguments before it runs the body, and raises TypeError
    when their number is not [arity]. *)
Definition call_method {A : Type} (arity nargs : nat) (body : M H A) : M H A :=
  if Nat.eqb nargs arity then body else raise TypeError.

(** [kin_step(TimeStepper, system, time, dt)] and
    [dyn_step(TimeStepper, system, time, dt)]: four positional arguments.
    A slot filled from [get_steps()] holds a bound method
    [self._..._step], which takes the three arguments
    [(System, time, dt)]; the fill value [no_operation] accepts any
    arguments and does nothing. *)
Definition call_step (f : option StepFn) : StepFn :=
  fun system time dt =>
    match f with
    | Some g => call_method 3 4 (g system time dt)
    | None => ret tt
    end.

(** [time += kin_prefactor(TimeStepper, dt)]: two positional arguments.
    A slot filled from [get_prefactors()] holds a bound method
    [self._..._prefactor], which takes the one argument [dt];
    [no_operation] returns [None], which cannot be added to a float. *)
Definition advance (time : T) (p : option PrefactorFn) (dt : T) : M H T :=
  match p with
  | Some f =>
      prefactor <- call_method 1 2 (ret (f dt)) ;;
      ret (add time prefactor)
  | None => raise TypeError
  end.

(** The values [prefactor(dt)] of the prefactor methods that the stages
    hold, each called with its one argument. *)
Definition stage_prefactors (stages : list Stage) (dt : T) : list (option T) :=
  map (fun stage : Stage =>
         match stage with
         | (Some prefactor, _, _) => Some (prefactor dt)
         | (None, _, _) => None
         end) stages.

Definition lift_result {A : Type} (r : result A) : M H A :=
  match r with Return a => ret a | Raise e => raise e end.

(** The loop over [steps_and_prefactors[:-1]] of [do_step]. *)
Fixpoint do_stages (SystemCollection : SystemCollectionType)
         (stages : list Stage) (time dt : T) : M H T :=
  match stages with
  | [] => ret time
  | (kin_prefactor, kin_step, dyn_step) :: rest =>
      for_each (_memory_blocks SystemCollection)
               (fun system => call_step kin_step system time dt) ;;
      time <- advance time kin_prefactor dt ;;
      constrain_values SystemCollection time ;;
      for_each (_memory_blocks SystemCollection)
               (fun system => update_internal_forces_and_torques system time) ;;
      synchronize SystemCollection time ;;
      for_each (_memory_blocks SystemCollection)
               (fun system => call_step dyn_step system time dt) ;;
      constrain_rates SystemCollection time ;;
      do_stages SystemCollection rest time dt
  end.

(** [SymplecticStepperMixin.do_step] *)
Definition do_step (steps_and_prefactors : list Stage)
           (SystemCollection : SystemCollectionType) (time dt : T) : M H T :=
  time <- do_stages SystemCollection (removelast steps_and_prefactors) time dt ;;
  match getitem steps_and_prefactors (-1) with
  | None => raise IndexError
  | Some (last_kin_prefactor, last_kin_step, _) =>
      for_each (_memory_blocks SystemCollection)
               (fun system => call_step last_kin_step system time dt) ;;
      time <- advance time last_kin_prefactor dt ;;
      constrain_values SystemCollection time ;;
      current_step <- lift_result (round_div time dt) ;;
      apply_callbacks SystemCollection time current_step ;;
      for_each (_memory_blocks SystemCollection)
               (fun system => reset_external_forces_and_torques system time) ;;
      ret time
  end.

(** The statements of [do_step] after its loop, for the last stage
    [last] (a name for the second half of the body above). *)
Definition after_loop (SystemCollection : SystemCollectionType) (dt : T)
           (last : Stage) (time : T) : M H T :=
  let '(last_kin_prefactor, last_kin_step, _) := last in
  for_each (_memory_blocks SystemCollection)
           (fun system => call_step last_kin_step system time dt) ;;
  time <- advance time last_kin_prefactor dt ;;
  constrain_values SystemCollection time ;;
  current_step <- lift_result (round_div time dt) ;;
  apply_callbacks SystemCollection time current_step ;;
  for_each (_memory_blocks SystemCollection)
           (fun system => reset_external_forces_and_torques system time) ;;
  ret time.

(** [SymplecticStepperMixin.step] *)
Definition step (self : Stepper) (SystemCollection : SystemCollectionType)
           (time dt : T) : M H T :=
  do_step (steps_and_prefactors self) SystemCollection time dt.

End Engine.

Arguments step_methods {T H} self.
Arguments init {T H} cls.
Arguments n_stages {T H} self.

(** ** [class PositionVerlet] *)
Module PositionVerlet.
Section Methods.
Variable T : Type.
Context {ScalarT : Scalar T}.
Variable H : Type.
Context {Blocks : SymplecticSystemProtocol T H}.

Definition _first_prefactor (dt : T) : T := mul (lit 5 (-1)) dt.

Definition _first_kinematic_step : StepFn T H :=
  fun System time dt =>
    let prefac := _first_prefactor dt in
    overload_operator_kinematic_numba System prefac.

Definition _first_dynamic_step : StepFn T H :=
  fun System time dt => overload_operator_dynamic_numba System time dt.

Definition class : StepperClass T H := {|
  get_steps := [ _first_kinematic_step; _first_dynamic_step ];
  get_prefactors := [ _first_prefactor ]
|}.
End Methods.
Arguments class {T ScalarT H Blocks}.
End PositionVerlet.

(** ** [class PEFRL] *)
Module PEFRL.
Section Methods.
Variable T : Type.
Context {ScalarT : Scalar T}.
Variable H : Type.
Context {Blocks : SymplecticSystemProtocol T H}.

Definition ξ : T := lit 1786178958448091 (-16).
Definition λ : T := neg (lit 2123418310626054 (-16)).
Definition χ : T := neg (lit 6626458266981849 (-17)).

Definition lambda_dash_coeff : T :=
  mul (lit 5 (-1)) (sub (lit 1 0) (mul (lit 2 0) λ)).
Definition xi_chi_dash_coeff : T :=
  sub (lit 1 0) (mul (lit 2 0) (add ξ χ)).

Definition _first_kinematic_prefactor (dt : T) : T := mul ξ dt.

Definition _first_kinematic_step : StepFn T H :=
  fun System time dt =>
    let prefac := _first_kinematic_prefactor dt in
    overload_operator_kinematic_numba System prefac.

Definition _first_dynamic_step : StepFn T H :=
  fun System time dt =>
    let prefac := mul lambda_dash_coeff dt in
    overload_operator_dynamic_numba System time prefac.

Definition _second_kinematic_prefactor (dt : T) : T := mul χ dt.

Definition _second_kinematic_step : StepFn T H :=
  fun System time dt =>
    let prefac := _second_kinematic_prefactor dt in
    overload_operator_kinematic_numba System prefac.

Definition _second_dynamic_step : StepFn T H :=
  fun System time dt =>
    let prefac := mul λ dt in
    overload_operator_dynamic_numba System time prefac.

Definition _third_kinematic_prefactor (dt : T) : T := mul xi_chi_dash_coeff dt.

Definition _third_kinematic_step : StepFn T H :=
  fun System time dt =>
    let prefac := _third_kinematic_prefactor dt in
    overload_operator_kinematic_numba System prefac.

Definition class : StepperClass T H := {|
  get_steps := [ _first_kinematic_step; _first_dynamic_step;
                 _second_kinematic_step; _second_dynamic_step;
                 _third_kinematic_step ];
  get_prefactors := [ _first_kinematic_prefactor;
                      _second_kinematic_prefactor;
                      _third_kinematic_prefactor ]
|}.
End Methods.
Arguments class {T ScalarT H Blocks}.
Arguments ξ {T ScalarT}.
Arguments λ {T ScalarT}.
Arguments χ {T ScalarT}.
Arguments lambda_dash_coeff {T ScalarT}.
Arguments xi_chi_dash_coeff {T ScalarT}.
End PEFRL.

End Steppers.

(* ================================================================== *)
(** * elastica/modules/base_system.py and elastica/modules/contact.py  *)
(* ================================================================== *)

Module Registry.

(** The one list object that closures of the registry capture by
    reference: [self._systems].  The registry never rebinds this
    attribute, it only mutates the list in place, so a captured reference
    always reads the registry's current list. *)
Inductive ListRef : Type := SystemsList.

(** [id(feature)] of an object registered in the synchronize group: a
    contact declaration (by its handle) or a feature of another module. *)
Inductive Owner : Type :=
| ContactOwner (handle : nat)
| OtherOwner (k : nat).

Definition Owner_eqb (a b : Owner) : bool :=
  match a, b with
  | ContactOwner x, ContactOwner y => Nat.eqb x y
  | OtherOwner x, OtherOwner y => Nat.eqb x y
  | _, _ => false
  end.

(** [NoContact], the base class of contact algorithms
    (declared in [elastica.contact_forces]). *)
Definition NoContact : PyClass :=
  {| cls_name := "NoContact"; cls_mro := ["NoContact"; "object"]%string |}.

(** The system base classes [__init__] allows. *)
Definition RodBase : PyClass :=
  {| cls_name := "RodBase"; cls_mro := ["RodBase"; "object"]%string |}.
Definition RigidBodyBase : PyClass :=
  {| cls_name := "RigidBodyBase"; cls_mro := ["RigidBodyBase"; "object"]%string |}.
Definition SurfaceBase : PyClass :=
  {| cls_name := "SurfaceBase"; cls_mro := ["SurfaceBase"; "object"]%string |}.

Section Registry.

Variable T : Type.
Variable H : Type.

(** The collaborators outside the sources: the aggregation of entities
    into blocks, the contact algorithms, and the operators that the
    forcing, constraint and callback modules contribute. *)
Class Collaborators : Type := {
  Args : Type;
  ContactInstance : Type;
  (** [construct_memory_block_structures(systems)]: the block objects *)
  construct_memory_block_structures : list SysObj -> list SysObj;
  (** [contact_cls( *args, **kwargs)] *)
  contact_new : PyClass -> Args -> result ContactInstance;
  (** [contact_instance._check_systems_validity(system_one, system_two)] *)
  _check_systems_validity : ContactInstance -> SysObj -> SysObj -> result unit;
  (** [contact_instance.apply_contact(system_one, system_two)] *)
  apply_contact : ContactInstance -> SysObj -> SysObj -> M H unit;
  (** operators and callbacks registered by other modules *)
  extern_operator : nat -> T -> M H unit;
  extern_callback : nat -> T -> Z -> M H unit
}.

Context {Ext : Collaborators}.

(** An operator of a feature group.  [ContactOperator] is the
    [functools.partial] built by [_finalize_contact]: it holds the
    keyword arguments [contact_instance], [system], [first_sys_idx] and
    [second_sys_idx]. *)
Inductive Operator : Type :=
| ContactOperator (contact_instance : ContactInstance) (system : ListRef)
                  (first_sys_idx second_sys_idx : Z)
| ExternOperator (k : nat).

Inductive CallbackOperator : Type :=
| ExternCallback (k : nat).

(** Modelled from the spec: the forcing, constraint and callback modules
    ([elastica/modules/forcing.py], [constraints.py] and [callbacks.py]
    are not among the sources; [continuum_flagella.py] mixes them in and
    calls their registration methods [add_forcing_to], [constrain] and
    [callback_of]).  Each of them contributes closures into its feature
    groups, synchronize for forcing, constrain_values and constrain_rates
    for constraints, callback for callbacks, and follows the
    declare-then-finalize-materialize pattern of the Contact module. *)
Inductive FeatureModule : Type :=
| Forcing
| Constraints
| CallBacks.

(** The entries of the finalize group: bound methods of the registry,
    [_finalize_contact] and the finalize method of each of the other
    modules. *)
Inductive FinalizeOperator : Type :=
| FinalizeContact
| FinalizeFeature (module : FeatureModule).

(** ** The operator group *)

(** Modelled from the spec: the operator group
    ([elastica/modules/operator_group.py] is not among the sources).
    An order-preserving collection of operators tagged by an owner:
    [append_id] registers the owner's (still empty) position at the end,
    [add_operators] puts operators at the owner's position, [is_last]
    tells whether the owner's position is the final one, and iteration
    yields the operators in the order of the positions. *)
Record OperatorGroupFIFO : Type := {
  _operator_collection : list (list Operator);
  _operator_ids : list Owner
}.

Definition OperatorGroupFIFO_new : OperatorGroupFIFO :=
  {| _operator_collection := []; _operator_ids := [] |}.

Definition append_id (g : OperatorGroupFIFO) (feature : Owner) : OperatorGroupFIFO :=
  {| _operator_collection := _operator_collection g ++ [[]];
     _operator_ids := _operator_ids g ++ [feature] |}.

(** [None]: the owner has no position (a lookup error). *)
Definition add_operators (g : OperatorGroupFIFO) (feature : Owner)
           (operators : list Operator) : option OperatorGroupFIFO :=
  match list_index Owner_eqb (_operator_ids g) feature with
  | Some idx =>
      match nth_error (_operator_collection g) idx with
      | Some slot =>
          Some {| _operator_collection :=
                    replace_nth (_operator_collection g) idx (slot ++ operators);
                  _operator_ids := _operator_ids g |}
      | None => None
      end
  | None => None
  end.

Definition is_last (g : OperatorGroupFIFO) (feature : Owner) : bool :=
  match getitem (_operator_ids g) (-1) with
  | Some o => Owner_eqb feature o
  | None => false
  end.

(** Iteration *)
Definition operators (g : OperatorGroupFIFO) : list Operator :=
  concat (_operator_collection g).

(** ** [class _Contact] *)

Record _Contact : Type := {
  first_sys_idx : Z;
  second_sys_idx : Z;
  _contact_cls : option PyClass;
  (** [_args] and [_kwargs]; the attributes exist only after [using] *)
  _args : option Args
}.

(** [_Contact.__init__] *)
Definition _Contact_new (first_sys_idx second_sys_idx : Z) : _Contact :=
  {| first_sys_idx := first_sys_idx; second_sys_idx := second_sys_idx;
     _contact_cls := None; _args := None |}.

(** [_Contact.id] *)
Definition _Contact_id (self : _Contact) : Z * Z :=
  (first_sys_idx self, second_sys_idx self).

(** [_Contact.instantiate] *)
Definition instantiate (self : _Contact) : result ContactInstance :=
  match _contact_cls self with
  | None => Raise RuntimeError
  | Some cls =>
      match _args self with
      | None => Raise AttributeError
      | Some a =>
          match contact_new cls a with
          | Return inst => Return inst
          | Raise TypeError | Raise IndexError => Raise TypeError
          | Raise e => Raise e
          end
      end
  end.

(** Modelled from the spec: a declaration of the forcing, constraint or
    callback module.  It holds the index of the entity, and, once [using]
    has been called, the algorithm to construct, named by the key under
    which the collaborators know the operator that it yields
    ([extern_operator], or [extern_callback] for a callback). *)
Record _Feature : Type := {
  _sys_idx : Z;
  _feature_cls : option nat
}.

(** ** The simulator object: [BaseSystemCollection] with its modules mixed in *)

Record Simulator : Type := {
  (** the class of the simulator object *)
  self_class : PyClass;
  _feature_group_synchronize : OperatorGroupFIFO;
  _feature_group_constrain_values : list Operator;
  _feature_group_constrain_rates : list Operator;
  _feature_group_callback : list CallbackOperator;
  (** [None] once finalize has discarded the group *)
  _feature_group_finalize : option (list FinalizeOperator);
  allowed_sys_types : list PyClass;
  _systems : list SysObj;
  _memory_blocks : list SysObj;
  _finalize_flag : bool;
  (** [Contact._contacts]: references to the pending declarations;
      [None] once the attribute has been deleted *)
  _contacts : option (list nat);
  (** the [_Contact] objects created so far; a handle is a position here *)
  contact_objects : list _Contact;
  (** the records written to the module's logger *)
  logged_warnings : list string;
  (** Modelled from the spec: the pending declarations of the forcing,
      constraint and callback modules, as references to the declaration
      objects; [None] when the attribute does not exist, because the
      module is not mixed in or because its finalize method has deleted
      the list *)
  _ext_forces_torques : option (list nat);
  _constraints : option (list nat);
  _callback_list : option (list nat);
  (** the [_Feature] objects created so far; a handle is a position here *)
  feature_objects : list _Feature
}.

Definition set_synchronize (g : OperatorGroupFIFO) (s : Simulator) : Simulator :=
  {| self_class := self_class s;
     _feature_group_synchronize := g;
     _feature_group_constrain_values := _feature_group_constrain_values s;
     _feature_group_constrain_rates := _feature_group_constrain_rates s;
     _feature_group_callback := _feature_group_callback s;
     _feature_group_finalize := _feature_group_finalize s;
     allowed_sys_types := allowed_sys_types s;
     _systems := _systems s;
     _memory_blocks := _memory_blocks s;
     _finalize_flag := _finalize_flag s;
     _contacts := _contacts s;
     contact_objects := contact_objects s;
     logged_warnings := logged_warnings s;
     _ext_forces_torques := _ext_forces_torques s;
     _constraints := _constraints s;
     _callback_list := _callback_list s;
     feature_objects := feature_objects s |}.

Definition set_finalize_group (g : option (list FinalizeOperator)) (s : Simulator)
  : Simulator :=
  {| self_class := self_class s;
     _feature_group_synchronize := _feature_group_synchronize s;
     _feature_group_constrain_values := _feature_group_constrain_values s;
     _feature_group_constrain_rates := _feature_group_constrain_rates s;
     _feature_group_callback := _feature_group_callback s;
     _feature_group_finalize := g;
     allowed_sys_types := allowed_sys_types s;
     _systems := _systems s;
     _memory_blocks := _memory_blocks s;
     _finalize_flag := _finalize_flag s;
     _contacts := _contacts s;
     contact_objects := contact_objects s;
     logged_warnings := logged_warnings s;
     _ext_forces_torques := _ext_forces_torques s;
     _constraints := _constraints s;
     _callback_list := _callback_list s;
     feature_objects := feature_objects s |}.

Definition set_allowed_sys_types (a : list PyClass) (s : Simulator) : Simulator :=
  {| self_class := self_class s;
     _feature_group_synchronize := _feature_group_synchronize s;
     _feature_group_constrain_values := _feature_group_constrain_values s;
     _feature_group_constrain_rates := _feature_group_constrain_rates s;
     _feature_group_callback := _feature_group_callback s;
     _feature_group_finalize := _feature_group_finalize s;
     allowed_sys_types := a;
     _systems := _systems s;
     _memory_blocks := _memory_blocks s;
     _finalize_flag := _finalize_flag s;
     _contacts := _contacts s;
     contact_objects := contact_objects s;
     logged_warnings := logged_warnings s;
     _ext_forces_torques := _ext_forces_torques s;
     _constraints := _constraints s;
     _callback_list := _callback_list s;
     feature_objects := feature_objects s |}.

Definition set_systems (l : list SysObj) (s : Simulator) : Simulator :=
  {| self_class := self_class s;
     _feature_group_synchronize := _feature_group_synchronize s;
     _feature_group_constrain_values := _feature_group_constrain_values s;
     _feature_group_constrain_rates := _feature_group_constrain_rates s;
     _feature_group_callback := _feature_group_callback s;
     _feature_group_finalize := _feature_group_finalize s;
     allowed_sys_types := allowed_sys_types s;
     _systems := l;
     _memory_blocks := _memory_blocks s;
     _finalize_flag := _finalize_flag s;
     _contacts := _contacts s;
     contact_objects := contact_objects s;
     logged_warnings := logged_warnings s;
     _ext_forces_torques := _ext_forces_torques s;
     _constraints := _constraints s;
     _callback_list := _callback_list s;
     feature_objects := feature_objects s |}.

Definition set_memory_blocks (l : list SysObj) (s : Simulator) : Simulator :=
  {| self_class := self_class s;
     _feature_group_synchronize := _feature_group_synchronize s;
     _feature_group_constrain_values := _feature_group_constrain_values s;
     _feature_group_constrain_rates := _feature_group_constrain_rates s;
     _feature_group_callback := _feature_group_callback s;
     _feature_group_finalize := _feature_group_finalize s;
     allowed_sys_types := allowed_sys_types s;
     _systems := _systems s;
     _memory_blocks := l;
     _finalize_flag := _finalize_flag s;
     _contacts := _contacts s;
     contact_objects := contact_objects s;
     logged_warnings := logged_warnings s;
     _ext_forces_torques := _ext_forces_torques s;
     _constraints := _constraints s;
     _callback_list := _callback_list s;
     feature_objects := feature_objects s |}.

Definition set_finalize_flag (b : bool) (s : Simulator) : Simulator :=
  {| self_class := self_class s;
     _feature_group_synchronize := _feature_group_synchronize s;
     _feature_group_constrain_values := _feature_group_constrain_values s;
     _feature_group_constrain_rates := _feature_group_constrain_rates s;
     _feature_group_callback := _feature_group_callback s;
     _feature_group_finalize := _feature_group_finalize s;
     allowed_sys_types := allowed_sys_types s;
     _systems := _systems s;
     _memory_blocks := _memory_blocks s;
     _finalize_flag := b;
     _contacts := _contacts s;
     contact_objects := contact_objects s;
     logged_warnings := logged_warnings s;
     _ext_forces_torques := _ext_forces_torques s;
     _constraints := _constraints s;
     _callback_list := _callback_list s;
     feature_objects := feature_objects s |}.

Definition set_contacts (c : option (list nat)) (s : Simulator) : Simulator :=
  {| self_class := self_class s;
     _feature_group_synchronize := _feature_group_synchronize s;
     _feature_group_constrain_values := _feature_group_constrain_values s;
     _feature_group_constrain_rates := _feature_group_constrain_rates s;
     _feature_group_callback := _feature_group_callback s;
     _feature_group_finalize := _feature_group_finalize s;
     allowed_sys_types := allowed_sys_types s;
     _systems := _systems s;
     _memory_blocks := _memory_blocks s;
     _finalize_flag := _finalize_flag s;
     _contacts := c;
     contact_objects := contact_objects s;
     logged_warnings := logged_warnings s;
     _ext_forces_torques := _ext_forces_torques s;
     _constraints := _constraints s;
     _callback_list := _callback_list s;
     feature_objects := feature_objects s |}.

Definition set_contact_objects (c : list _Contact) (s : Simulator) : Simulator :=
  {| self_class := self_class s;
     _feature_group_synchronize := _feature_group_synchronize s;
     _feature_group_constrain_values := _feature_group_constrain_values s;
     _feature_group_constrain_rates := _feature_group_constrain_rates s;
     _feature_group_callback := _feature_group_callback s;
     _feature_group_finalize := _feature_group_finalize s;
     allowed_sys_types := allowed_sys_types s;
     _systems := _systems s;
     _memory_blocks := _memory_blocks s;
     _finalize_flag := _finalize_flag s;
     _contacts := _contacts s;
     contact_objects := c;
     logged_warnings := logged_warnings s;
     _ext_forces_torques := _ext_forces_torques s;
     _constraints := _constraints s;
     _callback_list := _callback_list s;
     feature_objects := feature_objects s |}.

Definition set_logged_warnings (w : list string) (s : Simulator) : Simulator :=
  {| self_class := self_class s;
     _feature_group_synchronize := _feature_group_synchronize s;
     _feature_group_constrain_values := _feature_group_constrain_values s;
     _feature_group_constrain_rates := _feature_group_constrain_rates s;
     _feature_group_callback := _feature_group_callback s;
     _feature_group_finalize := _feature_group_finalize s;
     allowed_sys_types := allowed_sys_types s;
     _systems := _systems s;
     _memory_blocks := _memory_blocks s;
     _finalize_flag := _finalize_flag s;
     _contacts := _contacts s;
     contact_objects := contact_objects s;
     logged_warnings := w;
     _ext_forces_torques := _ext_forces_torques s;
     _constraints := _constraints s;
     _callback_list := _callback_list s;
     feature_objects := feature_objects s |}.

Definition set_constrain_values (l : list Operator) (s : Simulator) : Simulator :=
  {| self_class := self_class s;
     _feature_group_synchronize := _feature_group_synchronize s;
     _feature_group_constrain_values := l;
     _feature_group_constrain_rates := _feature_group_constrain_rates s;
     _feature_group_callback := _feature_group_callback s;
     _feature_group_finalize := _feature_group_finalize s;
     allowed_sys_types := allowed_sys_types s;
     _systems := _systems s;
     _memory_blocks := _memory_blocks s;
     _finalize_flag := _finalize_flag s;
     _contacts := _contacts s;
     contact_objects := contact_objects s;
     logged_warnings := logged_warnings s;
     _ext_forces_torques := _ext_forces_torques s;
     _constraints := _constraints s;
     _callback_list := _callback_list s;
     feature_objects := feature_objects s |}.

Definition set_constrain_rates (l : list Operator) (s : Simulator) : Simulator :=
  {| self_class := self_class s;
     _feature_group_synchronize := _feature_group_synchronize s;
     _feature_group_constrain_values := _feature_group_constrain_values s;
     _feature_group_constrain_rates := l;
     _feature_group_callback := _feature_group_callback s;
     _feature_group_finalize := _feature_group_finalize s;
     allowed_sys_types := allowed_sys_types s;
     _systems := _systems s;
     _memory_blocks := _memory_blocks s;
     _finalize_flag := _finalize_flag s;
     _contacts := _contacts s;
     contact_objects := contact_objects s;
     logged_warnings := logged_warnings s;
     _ext_forces_torques := _ext_forces_torques s;
     _constraints := _constraints s;
     _callback_list := _callback_list s;
     feature_objects := feature_objects s |}.

Definition set_callback (l : list CallbackOperator) (s : Simulator) : Simulator :=
  {| self_class := self_class s;
     _feature_group_synchronize := _feature_group_synchronize s;
     _feature_group_constrain_values := _feature_group_constrain_values s;
     _feature_group_constrain_rates := _feature_group_constrain_rates s;
     _feature_group_callback := l;
     _feature_group_finalize := _feature_group_finalize s;
     allowed_sys_types := allowed_sys_types s;
     _systems := _systems s;
     _memory_blocks := _memory_blocks s;
     _finalize_flag := _finalize_flag s;
     _contacts := _contacts s;
     contact_objects := contact_objects s;
     logged_warnings := logged_warnings s;
     _ext_forces_torques := _ext_forces_torques s;
     _constraints := _constraints s;
     _callback_list := _callback_list s;
     feature_objects := feature_objects s |}.

Definition set_ext_forces_torques (l : option (list nat)) (s : Simulator) : Simulator :=
  {| self_class := self_class s;
     _feature_group_synchronize := _feature_group_synchronize s;
     _feature_group_constrain_values := _feature_group_constrain_values s;
     _feature_group_constrain_rates := _feature_group_constrain_rates s;
     _feature_group_callback := _feature_group_callback s;
     _feature_group_finalize := _feature_group_finalize s;
     allowed_sys_types := allowed_sys_types s;
     _systems := _systems s;
     _memory_blocks := _memory_blocks s;
     _finalize_flag := _finalize_flag s;
     _contacts := _contacts s;
     contact_objects := contact_objects s;
     logged_warnings := logged_warnings s;
     _ext_forces_torques := l;
     _constraints := _constraints s;
     _callback_list := _callback_list s;
     feature_objects := feature_objects s |}.

Definition set_constraints (l : option (list nat)) (s : Simulator) : Simulator :=
  {| self_class := self_class s;
     _feature_group_synchronize := _feature_group_synchronize s;
     _feature_group_constrain_values := _feature_group_constrain_values s;
     _feature_group_constrain_rates := _feature_group_constrain_rates s;
     _feature_group_callback := _feature_group_callback s;
     _feature_group_finalize := _feature_group_finalize s;
     allowed_sys_types := allowed_sys_types s;
     _systems := _systems s;
     _memory_blocks := _memory_blocks s;
     _finalize_flag := _finalize_flag s;
     _contacts := _contacts s;
     contact_objects := contact_objects s;
     logged_warnings := logged_warnings s;
     _ext_forces_torques := _ext_forces_torques s;
     _constraints := l;
     _callback_list := _callback_list s;
     feature_objects := feature_objects s |}.

Definition set_callback_list (l : option (list nat)) (s : Simulator) : Simulator :=
  {| self_class := self_class s;
     _feature_group_synchronize := _feature_group_synchronize s;
     _feature_group_constrain_values := _feature_group_constrain_values s;
     _feature_group_constrain_rates := _feature_group_constrain_rates s;
     _feature_group_callback := _feature_group_callback s;
     _feature_group_finalize := _feature_group_finalize s;
     allowed_sys_types := allowed_sys_types s;
     _systems := _systems s;
     _memory_blocks := _memory_blocks s;
     _finalize_flag := _finalize_flag s;
     _contacts := _contacts s;
     contact_objects := contact_objects s;
     logged_warnings := logged_warnings s;
     _ext_forces_torques := _ext_forces_torques s;
     _constraints := _constraints s;
     _callback_list := l;
     feature_objects := feature_objects s |}.

Definition set_feature_objects (l : list _Feature) (s : Simulator) : Simulator :=
  {| self_class := self_class s;
     _feature_group_synchronize := _feature_group_synchronize s;
     _feature_group_constrain_values := _feature_group_constrain_values s;
     _feature_group_constrain_rates := _feature_group_constrain_rates s;
     _feature_group_callback := _feature_group_callback s;
     _feature_group_finalize := _feature_group_finalize s;
     allowed_sys_types := allowed_sys_types s;
     _systems := _systems s;
     _memory_blocks := _memory_blocks s;
     _finalize_flag := _finalize_flag s;
     _contacts := _contacts s;
     contact_objects := contact_objects s;
     logged_warnings := logged_warnings s;
     _ext_forces_torques := _ext_forces_torques s;
     _constraints := _constraints s;
     _callback_list := _callback_list s;
     feature_objects := l |}.

(** ** [BaseSystemCollection] *)

(** [__init__] of a simulator class deriving from [BaseSystemCollection]
    and [Contact]: [BaseSystemCollection.__init__] creates the feature
    groups, then [Contact.__init__] (reached through [super]) creates
    [_contacts] and appends [_finalize_contact] to the finalize group. *)
Definition __init__ (cls : PyClass) : Simulator :=
  {| self_class := cls;
     _feature_group_synchronize := OperatorGroupFIFO_new;
     _feature_group_constrain_values := [];
     _feature_group_constrain_rates := [];
     _feature_group_callback := [];
     _feature_group_finalize := Some [FinalizeContact];
     allowed_sys_types := [RodBase; RigidBodyBase; SurfaceBase];
     _systems := [];
     _memory_blocks := [];
     _finalize_flag := false;
     _contacts := Some [];
     contact_objects := [];
     logged_warnings := [];
     _ext_forces_torques := None;
     _constraints := None;
     _callback_list := None;
     feature_objects := [] |}.

(** Modelled from the spec: [__init__] of a simulator class deriving from
    [BaseSystemCollection], [Constraints], [Forcing], [Contact] and
    [CallBacks], in this order.  As [Contact.__init__] does, the
    [__init__] of each module creates its list of pending declarations,
    calls the next [__init__] through [super], and then appends its
    finalize method; so the finalize group holds the methods in the
    reverse order of the bases. *)
Definition __init___with_modules (cls : PyClass) : Simulator :=
  {| self_class := cls;
     _feature_group_synchronize := OperatorGroupFIFO_new;
     _feature_group_constrain_values := [];
     _feature_group_constrain_rates := [];
     _feature_group_callback := [];
     _feature_group_finalize :=
       Some [FinalizeFeature CallBacks; FinalizeContact;
             FinalizeFeature Forcing; FinalizeFeature Constraints];
     allowed_sys_types := [RodBase; RigidBodyBase; SurfaceBase];
     _systems := [];
     _memory_blocks := [];
     _finalize_flag := false;
     _contacts := Some [];
     contact_objects := [];
     logged_warnings := [];
     _ext_forces_torques := Some [];
     _constraints := Some [];
     _callback_list := Some [];
     feature_objects := [] |}.

Definition _check_type (sys_to_be_added : SysObj) : M Simulator bool :=
  self <- get ;;
  if negb (issubclass_any (sys_class sys_to_be_added) (allowed_sys_types self))
  then raise TypeError
  else if negb (forallb (fun req => issubclass (self_class self) req)
                        (REQUISITE_MODULES sys_to_be_added))
  then raise RuntimeError
  else ret true.

Definition __len__ : M Simulator Z :=
  self <- get ;; ret (Z.of_nat (length (_systems self))).

Definition __getitem__ (idx : Z) : M Simulator SysObj :=
  self <- get ;;
  match getitem (_systems self) idx with
  | Some s => ret s
  | None => raise IndexError
  end.

Definition __delitem__ (idx : Z) : M Simulator unit :=
  self <- get ;;
  match delitem (_systems self) idx with
  | Some l => modify (set_systems l)
  | None => raise IndexError
  end.

Definition __setitem__ (idx : Z) (system : SysObj) : M Simulator unit :=
  _check_type system ;;
  self <- get ;;
  match setitem (_systems self) idx system with
  | Some l => modify (set_systems l)
  | None => raise IndexError
  end.

Definition insert (idx : Z) (system : SysObj) : M Simulator unit :=
  _check_type system ;;
  self <- get ;;
  modify (set_systems (list_insert (_systems self) idx system)).

(** [MutableSequence.append]: [self.insert(len(self), value)] *)
Definition append (value : SysObj) : M Simulator unit :=
  n <- __len__ ;;
  insert n value.

Definition extend_allowed_types (additional_types : list PyClass) : M Simulator unit :=
  self <- get ;;
  modify (set_allowed_sys_types (allowed_sys_types self ++ additional_types)).

Definition override_allowed_types (allowed_types : list PyClass) : M Simulator unit :=
  modify (set_allowed_sys_types allowed_types).

(** The argument of [_get_sys_idx_if_valid]: an integer or a system. *)
Inductive SysArg : Type :=
| ByIndex (i : Z)
| ByObject (s : SysObj).

Definition _get_sys_idx_if_valid (sys_to_be_added : SysArg) : M Simulator Z :=
  self <- get ;;
  let n_systems := Z.of_nat (length (_systems self)) in
  match sys_to_be_added with
  | ByIndex i =>
      assert ((- n_systems <=? i)%Z && (i <? n_systems)%Z) ;;
      ret i
  | ByObject s =>
      _check_type s ;;
      match list_index same_object (_systems self) s with
      | Some sys_idx => ret (Z.of_nat sys_idx)
      | None => raise ValueError
      end
  end.

(** ** [Contact] *)

(** [_Contact(first, second)]: a new object; its handle is returned. *)
Definition new_contact (first second : Z) : M Simulator nat :=
  self <- get ;;
  modify (set_contact_objects (contact_objects self ++ [_Contact_new first second])) ;;
  ret (length (contact_objects self)).

Definition detect_contact_between (first_system second_system : SysArg)
  : M Simulator nat :=
  i <- _get_sys_idx_if_valid first_system ;;
  j <- _get_sys_idx_if_valid second_system ;;
  _contact <- new_contact i j ;;
  self <- get ;;
  match _contacts self with
  | None => raise AttributeError
  | Some l =>
      modify (set_contacts (Some (l ++ [_contact]))) ;;
      modify (fun self =>
                set_synchronize
                  (append_id (_feature_group_synchronize self) (ContactOwner _contact))
                  self) ;;
      ret _contact
  end.

(** [_Contact.using], on the declaration behind [handle] ([using] itself
    is a keyword here) *)
Definition _Contact_using (handle : nat) (contact_cls : PyClass) (args : Args)
  : M Simulator nat :=
  assert (issubclass contact_cls NoContact) ;;
  self <- get ;;
  match nth_error (contact_objects self) handle with
  | None => raise AttributeError
  | Some c =>
      modify (set_contact_objects
                (replace_nth (contact_objects self) handle
                   {| first_sys_idx := first_sys_idx c;
                      second_sys_idx := second_sys_idx c;
                      _contact_cls := Some contact_cls;
                      _args := Some args |})) ;;
      ret handle
  end.

Definition warning_message : string := "Contact features should be instantiated lastly.".

(** [Contact.warnings] *)
Definition warnings (handle : nat) (contact : _Contact) : M Simulator unit :=
  self <- get ;;
  if negb (is_last (_feature_group_synchronize self) (ContactOwner handle)) then
    if match _contact_cls contact with
       | Some cls => isinstance_of_class_object cls NoContact
       | None => false
       end
    then modify (set_logged_warnings (logged_warnings self ++ [warning_message]))
    else ret tt
  else ret tt.

Definition lift {S A : Type} (r : result A) : M S A :=
  match r with Return a => ret a | Raise e => raise e end.

(** The body of the loop of [_finalize_contact] *)
Definition _finalize_one_contact (handle : nat) : M Simulator unit :=
  self <- get ;;
  match nth_error (contact_objects self) handle with
  | None => raise AttributeError
  | Some contact =>
      let '(first_sys_idx, second_sys_idx) := _Contact_id contact in
      contact_instance <- lift (instantiate contact) ;;
      system_one <- __getitem__ first_sys_idx ;;
      system_two <- __getitem__ second_sys_idx ;;
      lift (_check_systems_validity contact_instance system_one system_two) ;;
      let func := ContactOperator contact_instance SystemsList
                                  first_sys_idx second_sys_idx in
      self <- get ;;
      match add_operators (_feature_group_synchronize self)
                          (ContactOwner handle) [func] with
      | None => raise ValueError
      | Some g =>
          modify (set_synchronize g) ;;
          warnings handle contact
      end
  end.

(** [Contact._finalize_contact] *)
Definition _finalize_contact : M Simulator unit :=
  self <- get ;;
  match _contacts self with
  | None => raise AttributeError
  | Some l =>
      for_each l _finalize_one_contact ;;
      modify (set_contacts None)
  end.

(** ** The forcing, constraint and callback modules *)

(** Modelled from the spec: the attribute that holds the pending
    declarations of a module. *)
Definition pending (module : FeatureModule) (self : Simulator) : option (list nat) :=
  match module with
  | Forcing => _ext_forces_torques self
  | Constraints => _constraints self
  | CallBacks => _callback_list self
  end.

Definition set_pending (module : FeatureModule) (l : option (list nat))
  : Simulator -> Simulator :=
  match module with
  | Forcing => set_ext_forces_torques l
  | Constraints => set_constraints l
  | CallBacks => set_callback_list l
  end.

(** [_Feature(sys_idx)]: a new object; its handle is returned. *)
Definition new_feature (sys_idx : Z) : M Simulator nat :=
  self <- get ;;
  modify (set_feature_objects
            (feature_objects self ++ [{| _sys_idx := sys_idx; _feature_cls := None |}])) ;;
  ret (length (feature_objects self)).

(** Modelled from the spec: the registration method of a module, the
    declare step of the pattern, written after [detect_contact_between]:
    it resolves the entity, creates the declaration and appends it to the
    module's pending declarations; a forcing declaration also takes its
    position in the synchronize group.  The declaration is returned for
    [using]. *)
Definition declare_feature (module : FeatureModule) (system : SysArg)
  : M Simulator nat :=
  sys_idx <- _get_sys_idx_if_valid system ;;
  _feature <- new_feature sys_idx ;;
  self <- get ;;
  match pending module self with
  | None => raise AttributeError
  | Some l =>
      modify (set_pending module (Some (l ++ [_feature]))) ;;
      match module with
      | Forcing =>
          modify (fun self =>
                    set_synchronize
                      (append_id (_feature_group_synchronize self) (OtherOwner _feature))
                      self)
      | Constraints | CallBacks => ret tt
      end ;;
      ret _feature
  end.

Definition add_forcing_to : SysArg -> M Simulator nat := declare_feature Forcing.
Definition constrain : SysArg -> M Simulator nat := declare_feature Constraints.
Definition callback_of : SysArg -> M Simulator nat := declare_feature CallBacks.

(** Modelled from the spec: [using], on the declaration behind [handle]:
    it stores the algorithm. *)
Definition _Feature_using (handle : nat) (feature_cls : nat) : M Simulator nat :=
  self <- get ;;
  match nth_error (feature_objects self) handle with
  | None => raise AttributeError
  | Some f =>
      modify (set_feature_objects
                (replace_nth (feature_objects self) handle
                   {| _sys_idx := _sys_idx f; _feature_cls := Some feature_cls |})) ;;
      ret handle
  end.

(** Modelled from the spec: the materialize step for one declaration of a
    module.  A declaration on which [using] was never called is a
    construction error; otherwise the closure of the algorithm is
    contributed to the feature groups of the module. *)
Definition _finalize_one_feature (module : FeatureModule) (handle : nat)
  : M Simulator unit :=
  self <- get ;;
  match nth_error (feature_objects self) handle with
  | None => raise AttributeError
  | Some feature =>
      match _feature_cls feature with
      | None => raise RuntimeError
      | Some k =>
          match module with
          | Forcing =>
              match add_operators (_feature_group_synchronize self)
                                  (OtherOwner handle) [ExternOperator k] with
              | None => raise ValueError
              | Some g => modify (set_synchronize g)
              end
          | Constraints =>
              modify (fun self =>
                        set_constrain_values
                          (_feature_group_constrain_values self ++ [ExternOperator k])
                          self) ;;
              modify (fun self =>
                        set_constrain_rates
                          (_feature_group_constrain_rates self ++ [ExternOperator k])
                          self)
          | CallBacks =>
              modify (fun self =>
                        set_callback
                          (_feature_group_callback self ++ [ExternCallback k]) self)
          end
      end
  end.

(** Modelled from the spec: the finalize method of a module, written
    after [_finalize_contact]: it materializes the pending declarations in
    the order of their declaration and deletes the list. *)
Definition _finalize_feature (module : FeatureModule) : M Simulator unit :=
  self <- get ;;
  match pending module self with
  | None => raise AttributeError
  | Some l =>
      for_each l (_finalize_one_feature module) ;;
      modify (set_pending module None)
  end.

Definition call_finalize (op : FinalizeOperator) : M Simulator unit :=
  match op with
  | FinalizeContact => _finalize_contact
  | FinalizeFeature module => _finalize_feature module
  end.

(** [BaseSystemCollection.finalize] *)
Definition finalize : M Simulator unit :=
  self <- get ;;
  assert (negb (_finalize_flag self)) ;;
  modify (set_memory_blocks (construct_memory_block_structures (_systems self))) ;;
  self <- get ;;
  for_each (_memory_blocks self) append ;;
  self <- get ;;
  match _feature_group_finalize self with
  | None => raise TypeError
  | Some ops =>
      for_each ops call_finalize ;;
      modify (set_finalize_group None) ;;
      modify (set_finalize_flag true)
  end.

(** ** The run-time hooks *)

Definition deref (self : Simulator) (r : ListRef) : list SysObj :=
  match r with SystemsList => _systems self end.

(** Calling an operator [func(time=time)].  For a contact operator this
    is the local function [apply_contact] of [_finalize_contact] applied
    to the arguments the partial holds. *)
Definition call_operator (self : Simulator) (func : Operator) (time : T) : M H unit :=
  match func with
  | ContactOperator contact_instance system first_sys_idx second_sys_idx =>
      match getitem (deref self system) first_sys_idx with
      | None => raise IndexError
      | Some system_one =>
          match getitem (deref self system) second_sys_idx with
          | None => raise IndexError
          | Some system_two => apply_contact contact_instance system_one system_two
          end
      end
  | ExternOperator k => extern_operator k time
  end.

Definition call_callback (func : CallbackOperator) (time : T) (current_step : Z)
  : M H unit :=
  match func with
  | ExternCallback k => extern_callback k time current_step
  end.

Definition synchronize (self : Simulator) (time : T) : M H unit :=
  for_each (operators (_feature_group_synchronize self))
           (fun func => call_operator self func time).

Definition constrain_values (self : Simulator) (time : T) : M H unit :=
  for_each (_feature_group_constrain_values self)
           (fun func => call_operator self func time).

Definition constrain_rates (self : Simulator) (time : T) : M H unit :=
  for_each (_feature_group_constrain_rates self)
           (fun func => call_operator self func time).

Definition apply_callbacks (self : Simulator) (time : T) (current_step : Z) : M H unit :=
  for_each (_feature_group_callback self)
           (fun func => call_callback func time current_step).

(** ** What the setup methods leave alone *)

(** [finalize] up to its last two statements changes neither the class,
    the allowed types, the finalize flag and group, nor the blocks, the
    pending declarations and the declaration objects. *)
Definition setup_frame (r r' : Simulator) : Prop :=
  self_class r' = self_class r
  /\ allowed_sys_types r' = allowed_sys_types r
  /\ _finalize_flag r' = _finalize_flag r
  /\ _feature_group_finalize r' = _feature_group_finalize r
  /\ _memory_blocks r' = _memory_blocks r
  /\ _contacts r' = _contacts r
  /\ contact_objects r' = contact_objects r.

(** No operator leaves the synchronize group. *)
Definition synchronize_grows (r r' : Simulator) : Prop :=
  forall op, In op (operators (_feature_group_synchronize r)) ->
             In op (operators (_feature_group_synchronize r')).

(** The list of pending declarations that a finalize method works on has
    been deleted. *)
Definition deleted_by (op : FinalizeOperator) (self : Simulator) : Prop :=
  match op with
  | FinalizeContact => _contacts self = None
  | FinalizeFeature module => pending module self = None
  end.

(** What has been deleted stays deleted. *)
Definition deleted_stays (op : FinalizeOperator) (r r' : Simulator) : Prop :=
  deleted_by op r -> deleted_by op r'.

(** A relation between registries that holds across every update that
    the finalize methods of the forcing, constraint and callback modules
    make. *)
Definition respects_materialize (R : Simulator -> Simulator -> Prop) : Prop :=
  (forall s o ops g,
      add_operators (_feature_group_synchronize s) o ops = Some g ->
      R s (set_synchronize g s))
  /\ (forall s l, R s (set_constrain_values l s))
  /\ (forall s l, R s (set_constrain_rates l s))
  /\ (forall s l, R s (set_callback l s))
  /\ (forall s module, R s (set_pending module None s)).

(** The simulator as the stepper sees it. *)
Definition as_collection (self : Simulator) : Steppers.SystemCollectionType T H :=
  {| Steppers._memory_blocks := _memory_blocks self;
     Steppers.constrain_values := constrain_values self;
     Steppers.synchronize := synchronize self;
     Steppers.constrain_rates := constrain_rates self;
     Steppers.apply_callbacks := apply_callbacks self |}.

End Registry.

Arguments __init__ {T H Ext} cls.
Arguments __len__ {T H Ext}.
Arguments _finalize_contact {T H Ext}.
Arguments finalize {T H Ext}.
Arguments OperatorGroupFIFO_new {T H Ext}.
Arguments Simulator {T H Ext}.
Arguments Operator {T H Ext}.
Arguments OperatorGroupFIFO {T H Ext}.
Arguments _Contact {T H Ext}.
Arguments setup_frame {T H Ext} r r'.
Arguments _finalize_one_contact {T H Ext} handle.
Arguments call_finalize {T H Ext} op.
Arguments append {T H Ext} value.
Arguments synchronize_grows {T H Ext} r r'.
Arguments __init___with_modules {T H Ext} cls.
Arguments new_feature {T H Ext} sys_idx.
Arguments declare_feature {T H Ext} module system.
Arguments add_forcing_to {T H Ext}.
Arguments constrain {T H Ext}.
Arguments callback_of {T H Ext}.
Arguments _Feature_using {T H Ext} handle feature_cls.
Arguments _finalize_one_feature {T H Ext} module handle.
Arguments _finalize_feature {T H Ext} module.
Arguments pending {T H Ext} module self.
Arguments set_pending {T H Ext} module l.
Arguments deleted_by {T H Ext} op self.
Arguments deleted_stays {T H Ext} op r r'.
Arguments respects_materialize {T H Ext} R.

End Registry.


(* ================================================================== *)
(** * A concrete world: point masses                                   *)
(* ================================================================== *)

(** Modelled from the spec: the entity capability contract for the simplest
    entity, a point mass of unit mass on a line (the rod, rigid body and
    block classes are not among the sources).  The kinematic update adds
    [prefac * velocity] to the position, the dynamic update adds
    [prefac * (internal + external force)] to the velocity, a free mass has
    no internal force, and the reset sets the external force to zero. *)
Module PointMass.
Section PointMass.

Variable T : Type.
Context {ScalarT : Scalar T}.

Record Body : Type := {
  position : T;
  velocity : T;
  internal_force : T;
  external_force : T
}.

(** The bodies, by object identity. *)
Definition World : Type := list Body.

Definition update (sys : SysObj) (f : Body -> Body) : M World unit :=
  fun w =>
    match nth_error w (oid sys) with
    | Some b => (Return tt, replace_nth w (oid sys) (f b))
    | None => (Raise AttributeError, w)
    end.

#[export] Instance blocks : Steppers.SymplecticSystemProtocol T World := {|
  Steppers.update_internal_forces_and_torques sys time :=
    update sys (fun b =>
      {| position := position b; velocity := velocity b;
         internal_force := lit 0 0; external_force := external_force b |});
  Steppers.reset_external_forces_and_torques sys time :=
    update sys (fun b =>
      {| position := position b; velocity := velocity b;
         internal_force := internal_force b; external_force := lit 0 0 |});
  Steppers.overload_operator_kinematic_numba sys prefac :=
    update sys (fun b =>
      {| position := add (position b) (mul prefac (velocity b));
         velocity := velocity b;
         internal_force := internal_force b; external_force := external_force b |});
  Steppers.overload_operator_dynamic_numba sys time prefac :=
    update sys (fun b =>
      {| position := position b;
         velocity := add (velocity b)
                         (mul prefac (add (internal_force b) (external_force b)));
         internal_force := internal_force b; external_force := external_force b |})
|}.

(** The external force accumulator of [sys] reads zero. *)
Definition external_zero (sys : SysObj) (w : World) : Prop :=
  exists b, nth_error w (oid sys) = Some b /\ external_force b = lit 0 0.

Definition add_external (f : T) (b : Body) : Body :=
  {| position := position b; velocity := velocity b;
     internal_force := internal_force b;
     external_force := add (external_force b) f |}.

Definition BlockClass : PyClass :=
  {| cls_name := "MemoryBlockCosseratRod";
     cls_mro := ["MemoryBlockCosseratRod"; "CosseratRod"; "RodBase"; "object"]%string |}.

(** Collaborators for the registry: one block for a non-empty sequence of
    systems, with a fresh identity; a contact algorithm built from the
    strength of a symmetric force, which it adds to the first system and
    subtracts from the second; no other operators. *)
#[export] Instance collaborators : Registry.Collaborators T World := {|
  Registry.Args := T;
  Registry.ContactInstance := T;
  Registry.construct_memory_block_structures systems :=
    match systems with
    | [] => []
    | _ => [ {| oid := S (list_max (map oid systems));
                sys_class := BlockClass; REQUISITE_MODULES := [] |} ]
    end;
  Registry.contact_new cls strength := Return strength;
  Registry._check_systems_validity inst system_one system_two := Return tt;
  Registry.apply_contact strength system_one system_two :=
    update system_one (add_external strength) ;;
    update system_two (add_external (neg strength));
  Registry.extern_operator k time := ret tt;
  Registry.extern_callback k time current_step := ret tt
|}.

End PointMass.

Arguments blocks {T ScalarT}.
Arguments collaborators {T ScalarT}.

End PointMass.

(* ================================================================== *)
(** * Concrete simulations                                             *)
(* ================================================================== *)

Module Scenario.

Definition CosseratRod : PyClass :=
  {| cls_name := "CosseratRod";
     cls_mro := ["CosseratRod"; "RodBase"; "object"]%string |}.

Definition rod (k : nat) : SysObj :=
  {| oid := k; sys_class := CosseratRod; REQUISITE_MODULES := [] |}.

(** [class Simulator(BaseSystemCollection, Contact)] *)
Definition SimulatorClass : PyClass :=
  {| cls_name := "Simulator";
     cls_mro := ["Simulator"; "BaseSystemCollection"; "MutableSequence";
                 "Contact"; "object"]%string |}.

(** [class FullSimulator(BaseSystemCollection, Constraints, Forcing,
    Contact, CallBacks)] *)
Definition FullSimulatorClass : PyClass :=
  {| cls_name := "FullSimulator";
     cls_mro := ["FullSimulator"; "BaseSystemCollection"; "MutableSequence";
                 "Constraints"; "Forcing"; "Contact"; "CallBacks";
                 "object"]%string |}.

Section Scenario.

Variable T : Type.
Context {ScalarT : Scalar T}.

Import Registry.
#[local] Existing Instance PointMass.blocks.
#[local] Existing Instance PointMass.collaborators.

Local Abbreviation World := (PointMass.World T).
Local Abbreviation Sim :=
  (Simulator (T := T) (H := World) (Ext := PointMass.collaborators (T := T))).

Definition new_simulator : Sim := __init__ SimulatorClass.

(** The stepper object [cls()] when the construction succeeds. *)
Definition constructed (cls : Steppers.StepperClass T World) : Steppers.Stepper T World :=
  match Steppers.init cls with
  | Return self => self
  | Raise _ => {| Steppers.steps_and_prefactors := [] |}
  end.

(** The stepper classes over the point-mass world. *)
Definition PositionVerlet : Steppers.StepperClass T World :=
  Steppers.PositionVerlet.class (Blocks := PointMass.blocks (T := T)).
Definition PEFRL : Steppers.StepperClass T World :=
  Steppers.PEFRL.class (Blocks := PointMass.blocks (T := T)).

(** Two rods and one contact between them, declared by object. *)
Definition declare_two_rods : M Sim unit :=
  append (rod 0) ;;
  append (rod 1) ;;
  c <- detect_contact_between (ByObject (rod 0)) (ByObject (rod 1)) ;;
  _Contact_using c NoContact (lit 5 (-1)) ;;
  ret tt.

Definition two_rods : Sim := snd (declare_two_rods new_simulator).
Definition two_rods_finalized : Sim := snd (finalize two_rods).

(** A body at rest at the origin and a body moving at unit speed. *)
Definition at_rest : PointMass.Body T :=
  {| PointMass.position := lit 0 0; PointMass.velocity := lit 0 0;
     PointMass.internal_force := lit 0 0; PointMass.external_force := lit 0 0 |}.
Definition moving : PointMass.Body T :=
  {| PointMass.position := lit 0 0; PointMass.velocity := lit 1 0;
     PointMass.internal_force := lit 0 0; PointMass.external_force := lit 0 0 |}.

(** The bodies of the two rods and of their block. *)
Definition three_bodies : World := [at_rest; at_rest; moving].

(** A body at rest on which a unit external force has been accumulated,
    and the bodies of the two rods and of their block when it is the
    block that carries the force. *)
Definition loaded : PointMass.Body T :=
  {| PointMass.position := lit 0 0; PointMass.velocity := lit 0 0;
     PointMass.internal_force := lit 0 0; PointMass.external_force := lit 1 0 |}.
Definition loaded_block : World := [at_rest; at_rest; loaded].

(** Two declarations; [using] is never called on the second. *)
Definition declare_second_without_using : M Sim unit :=
  append (rod 0) ;;
  append (rod 1) ;;
  c <- detect_contact_between (ByObject (rod 0)) (ByObject (rod 1)) ;;
  _Contact_using c NoContact (lit 5 (-1)) ;;
  detect_contact_between (ByObject (rod 1)) (ByObject (rod 0)) ;;
  ret tt.

Definition second_without_using : Sim :=
  snd (declare_second_without_using new_simulator).

(** Two declarations, both with a contact class. *)
Definition declare_two_contacts : M Sim unit :=
  append (rod 0) ;;
  append (rod 1) ;;
  c <- detect_contact_between (ByObject (rod 0)) (ByObject (rod 1)) ;;
  _Contact_using c NoContact (lit 5 (-1)) ;;
  c' <- detect_contact_between (ByObject (rod 1)) (ByObject (rod 0)) ;;
  _Contact_using c' NoContact (lit 5 (-1)) ;;
  ret tt.

Definition two_contacts : Sim := snd (declare_two_contacts new_simulator).

(** Two rods with a constraint and a forcing on the first rod, a contact
    between the two, and a callback on the second rod, in a simulator
    that mixes in all four modules. *)
Definition declare_all_features : M Sim unit :=
  append (rod 0) ;;
  append (rod 1) ;;
  k <- constrain (ByObject (rod 0)) ;;
  _Feature_using k 0 ;;
  f <- add_forcing_to (ByObject (rod 0)) ;;
  _Feature_using f 1 ;;
  c <- detect_contact_between (ByObject (rod 0)) (ByObject (rod 1)) ;;
  _Contact_using c NoContact (lit 5 (-1)) ;;
  b <- callback_of (ByObject (rod 1)) ;;
  _Feature_using b 0 ;;
  ret tt.

Definition all_features : Sim :=
  snd (declare_all_features (__init___with_modules FullSimulatorClass)).
Definition all_features_finalized : Sim := snd (finalize all_features).

(** After finalize, the first position of the two rods is assigned a
    third rod (the block has identity 2). *)
Definition first_rod_replaced : Sim :=
  snd (__setitem__ 0 (rod 3) two_rods_finalized).

(** The bodies of rod 0, rod 1, the block and rod 3, all at rest. *)
Definition four_bodies : World := [at_rest; at_rest; at_rest; at_rest].

(** A free point mass at [x] with velocity [v]: no internal force, no
    external force, so no acceleration. *)
Definition free_mass (x v : T) : PointMass.Body T :=
  {| PointMass.position := x; PointMass.velocity := v;
     PointMass.internal_force := lit 0 0; PointMass.external_force := lit 0 0 |}.

(** The collection that holds the free mass as its one block: no
    constraint, no forcing, no contact, no callback. *)
Definition free_collection : Steppers.SystemCollectionType T World :=
  {| Steppers._memory_blocks := [rod 0];
     Steppers.constrain_values time := ret tt;
     Steppers.synchronize time := ret tt;
     Steppers.constrain_rates time := ret tt;
     Steppers.apply_callbacks time current_step := ret tt |}.

(** [timestepper = cls()] followed by
    [timestepper.step(SystemCollection, time, dt)]. *)
Definition construct_and_step (cls : Steppers.StepperClass T World)
           (SystemCollection : Steppers.SystemCollectionType T World)
           (time dt : T) : M World T :=
  self <- Steppers.lift_result (Steppers.init cls) ;;
  Steppers.step self SystemCollection time dt.

End Scenario.

Arguments new_simulator T {ScalarT}.
Arguments constructed {T} cls.
Arguments PositionVerlet T {ScalarT}.
Arguments PEFRL T {ScalarT}.
Arguments declare_two_rods T {ScalarT}.
Arguments two_rods T {ScalarT}.
Arguments two_rods_finalized T {ScalarT}.
Arguments at_rest T {ScalarT}.
Arguments moving T {ScalarT}.
Arguments three_bodies T {ScalarT}.
Arguments loaded T {ScalarT}.
Arguments loaded_block T {ScalarT}.
Arguments second_without_using T {ScalarT}.
Arguments two_contacts T {ScalarT}.
Arguments all_features T {ScalarT}.
Arguments all_features_finalized T {ScalarT}.
Arguments first_rod_replaced T {ScalarT}.
Arguments four_bodies T {ScalarT}.

End Scenario.

(* ================================================================== *)
(** * Properties                                                       *)
(* ================================================================== *)

(** ** Laws of stateful computations *)

Section MonadLaws.

Context {S : Type}.

#[export] Instance meq_Equivalence (A : Type) : Equivalence (@meq S A).
Proof.
  split.
  - intros c s. reflexivity.
  - intros c d E s. symmetry. apply E.
  - intros c d e E1 E2 s. rewrite E1. apply E2.
Qed.

#[export] Instance bind_Proper (A B : Type) :
  Proper (meq ==> pointwise_relation A meq ==> meq) (@bind S A B).
Proof.
  intros c d E k1 k2 K s. unfold bind. rewrite E.
  destruct (d s) as [[a | e] s']; [apply K | reflexivity].
Qed.

Lemma bind_ret_l (A B : Type) (a : A) (k : A -> M S B) :
  meq (bind (ret a) k) (k a).
Proof. intros s. reflexivity. Qed.

Lemma bind_ret_r (A : Type) (c : M S A) : meq (bind c ret) c.
Proof. intros s. unfold bind, ret. destruct (c s) as [[a | e] s']; reflexivity. Qed.

Lemma bind_raise (A B : Type) (e : exn) (k : A -> M S B) :
  meq (bind (raise e) k) (raise e).
Proof. intros s. reflexivity. Qed.

Lemma bind_assoc (A B C : Type) (c : M S A) (k1 : A -> M S B) (k2 : B -> M S C) :
  meq (bind (bind c k1) k2) (bind c (fun x => bind (k1 x) k2)).
Proof.
  intros s. unfold bind. destruct (c s) as [[a | e] s']; reflexivity.
Qed.

Lemma for_each_app (A : Type) (l1 l2 : list A) (f : A -> M S unit) :
  meq (for_each (l1 ++ l2) f) (for_each l1 f ;; for_each l2 f).
Proof.
  induction l1 as [| x l1 IH]; simpl.
  - now rewrite bind_ret_l.
  - rewrite bind_assoc. now setoid_rewrite IH.
Qed.

Lemma for_each_map (A B : Type) (g : B -> A) (l : list B) (f : A -> M S unit) :
  meq (for_each (map g l) f) (for_each l (fun x => f (g x))).
Proof.
  induction l as [| x l IH]; simpl.
  - reflexivity.
  - now setoid_rewrite IH.
Qed.

Lemma for_each_single (A : Type) (x : A) (f : A -> M S unit) :
  meq (for_each [x] f) (f x).
Proof.
  simpl. intros s. unfold bind, ret.
  destruct (f x s) as [[[] | e] s']; reflexivity.
Qed.

(** Inversion of a bind that returned. *)
Lemma bind_Return (A B : Type) (c : M S A) (k : A -> M S B) s b s2 :
  bind c k s = (Return b, s2) ->
  exists a s1, c s = (Return a, s1) /\ k a s1 = (Return b, s2).
Proof.
  unfold bind. destruct (c s) as [[a | e] s1]; intros E.
  - now exists a, s1.
  - discriminate.
Qed.

End MonadLaws.

(** ** Python list facts *)

Lemma getitem_last (A : Type) (l : list A) (x : A) :
  getitem (l ++ [x]) (-1) = Some x.
Proof.
  unfold getitem, norm_index. rewrite length_app. simpl.
  replace ((0 <=? -1)%Z) with false by reflexivity. simpl.
  destruct ((- Z.of_nat (length l + 1) <=? -1)%Z) eqn:E.
  - replace (Z.to_nat (Z.of_nat (length l + 1) + -1)) with (length l) by lia.
    simpl. rewrite nth_error_app2 by lia. now rewrite Nat.sub_diag.
  - apply Z.leb_gt in E. lia.
Qed.

Lemma getitem_nil (A : Type) (i : Z) : getitem (@nil A) i = None.
Proof.
  unfold getitem, norm_index. simpl.
  destruct ((0 <=? i)%Z && (i <? 0)%Z) eqn:E1.
  - apply andb_true_iff in E1 as [E1 E2].
    apply Z.leb_le in E1. apply Z.ltb_lt in E2. lia.
  - destruct ((- 0 <=? i)%Z && (i <? 0)%Z) eqn:E2; [| reflexivity].
    apply andb_true_iff in E2 as [E2 E3].
    apply Z.leb_le in E2. apply Z.ltb_lt in E3. lia.
Qed.


(** ** Construction of a stepper *)

Lemma slice_even_cons2 (A : Type) (x y : A) (l : list A) :
  slice_even (x :: y :: l) = x :: slice_even l.
Proof. reflexivity. Qed.

Lemma length_slice_even_odd (A : Type) (l : list A) :
  (length (slice_even l) + length (slice_odd l) = length l
   /\ length (slice_odd l) <= length (slice_even l) <= S (length (slice_odd l)))%nat.
Proof.
  induction l as [| x l IH]; simpl.
  - lia.
  - destruct l as [| y l]; simpl in *; lia.
Qed.

Section StepperConstruction.

Variable T H : Type.
Import Steppers.

(** A construction that succeeds builds at least one stage, and every
    stage holds a prefactor method. *)
Lemma step_methods_well_formed (cls : StepperClass T H) (stages : list (Stage T H)) :
  step_methods cls = Return stages ->
  stages <> [] /\ Forall (fun stage => fst (fst stage) <> None) stages.
Proof.
  unfold step_methods.
  set (steps := get_steps cls ++ slice_m2_rev (get_steps cls)).
  set (prefactors := get_prefactors cls ++ slice_m2_rev (get_prefactors cls)).
  destruct (Z.eqb_spec (Z.of_nat (length steps)) (2 * Z.of_nat (length prefactors) - 1))
    as [E | E]; [| discriminate].
  intros [= <-].
  pose proof (length_slice_even_odd steps) as [L1 L2].
  assert (Hlen : Nat.max (length prefactors)
                   (Nat.max (length (slice_even steps)) (length (slice_odd steps)))
                 = length prefactors) by lia.
  unfold zip_longest. rewrite Hlen. split.
  - destruct prefactors; simpl in *; [lia | discriminate].
  - apply Forall_map, Forall_forall. intros k Hk. apply in_seq in Hk.
    destruct (nth_error prefactors k) eqn:Ek; [simpl; discriminate |].
    apply nth_error_None in Ek. lia.
Qed.

End StepperConstruction.

(** ** One step *)

Section OneStep.

Variable T : Type.
Context {ScalarT : Scalar T}.
Variable H : Type.
Context {Blocks : Steppers.SymplecticSystemProtocol T H}.

Import Steppers.

(** The loop that calls a step slot on every block: a bound method
    raises at the first block; [no_operation] runs through. *)
Lemma step_loop (f : option (StepFn T H)) (blocks : list SysObj) (time dt : T) (h : H) :
  for_each blocks (fun system => call_step f system time dt) h
  = match f, blocks with
    | Some _, _ :: _ => (Raise TypeError, h)
    | _, _ => (Return tt, h)
    end.
Proof.
  destruct f as [g |].
  - destruct blocks as [| b blocks]; reflexivity.
  - induction blocks as [| b blocks IH]; [reflexivity |].
    cbn [for_each]. unfold bind at 1. cbn [call_step ret]. exact IH.
Qed.

Lemma advance_raises (time : T) (p : option (PrefactorFn T)) (dt : T) (h : H) :
  advance time p dt h = (Raise TypeError, h).
Proof. destruct p; reflexivity. Qed.

(** Whatever the slots of a stage hold, the kinematic loop followed by
    the addition of the prefactor raises TypeError in the state it
    started from. *)
Lemma stage_head_raises (A : Type) (kin_step : option (StepFn T H))
      (kin_prefactor : option (PrefactorFn T)) (blocks : list SysObj)
      (time dt : T) (k : T -> M H A) (h : H) :
  (for_each blocks (fun system => call_step kin_step system time dt) ;;
   time <- advance time kin_prefactor dt ;;
   k time) h = (Raise TypeError, h).
Proof.
  unfold bind at 1. rewrite step_loop.
  destruct kin_step as [g |]; destruct blocks as [| b blocks];
    try reflexivity; unfold bind; now rewrite advance_raises.
Qed.

Lemma do_stages_raises (C : SystemCollectionType T H) (stage : Stage T H)
      (rest : list (Stage T H)) (time dt : T) (h : H) :
  do_stages C (stage :: rest) time dt h = (Raise TypeError, h).
Proof.
  destruct stage as [[kin_prefactor kin_step] dyn_step].
  cbn [do_stages]. apply stage_head_raises.
Qed.

Lemma do_step_raises (stages : list (Stage T H)) (C : SystemCollectionType T H)
      (time dt : T) (h : H) :
  do_step stages C time dt h
  = (Raise (match stages with [] => IndexError | _ :: _ => TypeError end), h).
Proof.
  destruct stages as [| stage [| stage' rest]].
  - reflexivity.
  - unfold do_step. cbn [removelast do_stages]. unfold bind at 1. cbn [ret].
    change (getitem [stage] (-1)) with (Some stage).
    destruct stage as [[last_kin_prefactor last_kin_step] dyn_step].
    apply stage_head_raises.
  - unfold do_step. unfold bind at 1.
    change (removelast (stage :: stage' :: rest))
      with (stage :: removelast (stage' :: rest)).
    now rewrite do_stages_raises.
Qed.

(** C1 (defect of the code).  [do_step] calls every slot of a stage with
    the stepper as an extra first argument,
    [kin_step(TimeStepper, system, time, dt)] and
    [kin_prefactor(TimeStepper, dt)], but the slots hold the bound methods
    that [get_steps()] and [get_prefactors()] return, which take
    [(System, time, dt)] and [(dt)].  So for every stepper whose
    construction succeeded, on every collection, [step] raises TypeError
    in its first stage: at the first kinematic call when the collection
    has a block, and at the prefactor call when it has none.  This is
    before any call of [constrain_values], of a block's
    [update_internal_forces_and_torques], of [synchronize],
    [constrain_rates], [apply_callbacks] or of a block's
    [reset_external_forces_and_torques]: whatever these do, the state of
    the entities is left as it was, so the specified sequence is not run,
    the external forces and torques are not reset, and no time is
    returned. *)
Theorem step_raises_in_first_stage
        (cls : StepperClass T H) (self : Stepper T H)
        (SystemCollection : SystemCollectionType T H) (time dt : T) (h : H) :
  init cls = Return self ->
  (1 <= n_stages self)%nat
  /\ step self SystemCollection time dt h = (Raise TypeError, h)
  /\ (forall kin_prefactor kin_step dyn_step rest,
        steps_and_prefactors self = (kin_prefactor, kin_step, dyn_step) :: rest ->
        (forall b blocks, _memory_blocks SystemCollection = b :: blocks ->
           kin_step <> None
           /\ call_step kin_step b time dt h = (Raise TypeError, h))
        /\ (_memory_blocks SystemCollection = [] ->
            advance time kin_prefactor dt h = (Raise TypeError, h))).
Proof.
  unfold init. intros Hinit.
  destruct (step_methods cls) as [stages | e] eqn:Hstages; [| discriminate].
  injection Hinit as <-. unfold n_stages, step. cbn [steps_and_prefactors].
  pose proof Hstages as Hmethods.
  apply step_methods_well_formed in Hstages as [Hne Hpre].
  destruct stages as [| stage rest]; [congruence |].
  split; [simpl; lia |]. split; [apply do_step_raises |].
  intros kin_prefactor kin_step dyn_step rest' [= -> ->].
  split; [| intros _; apply advance_raises].
  intros b blocks Hblocks.
  assert (Hkin : kin_step <> None).
  { revert Hmethods. unfold step_methods.
    destruct (_ =? _)%Z eqn:Hlen; [| discriminate].
    apply Z.eqb_eq in Hlen.
    set (steps := get_steps cls ++ slice_m2_rev (get_steps cls)) in *.
    set (prefactors := get_prefactors cls ++ slice_m2_rev (get_prefactors cls)) in *.
    destruct prefactors as [| p prefactors]; [simpl in Hlen; lia |].
    destruct steps as [| s steps]; [simpl in Hlen; lia |].
    unfold zip_longest. cbn [length Nat.max].
    destruct steps as [| s' steps]; cbn; intros [= _ <- _ _]; discriminate. }
  split; [exact Hkin |].
  destruct kin_step as [g |]; [reflexivity | congruence].
Qed.

End OneStep.

(** ** The point-mass world *)

Lemma nth_error_replace_nth_eq (A : Type) (l : list A) (k : nat) (x y : A) :
  nth_error l k = Some y -> nth_error (replace_nth l k x) k = Some x.
Proof.
  revert k. induction l as [| z l IH]; intros [| k]; simpl; try discriminate; auto.
Qed.

Lemma nth_error_replace_nth_neq (A : Type) (l : list A) (k j : nat) (x : A) :
  j <> k -> nth_error (replace_nth l k x) j = nth_error l j.
Proof.
  revert k j. induction l as [| z l IH]; intros [| k] [| j] Hneq; simpl; auto.
  congruence.
Qed.

Lemma length_replace_nth (A : Type) (l : list A) (k : nat) (x : A) :
  length (replace_nth l k x) = length l.
Proof.
  revert k. induction l as [| y l IH]; intros [| k]; simpl; auto.
Qed.

Import PointMass.

Lemma step_raises_in_first_stage_witness :
  let self := Scenario.constructed (Scenario.PEFRL Q) in
  let simulator := Scenario.two_rods_finalized Q in
  let C := Registry.as_collection simulator in
  let h := Scenario.loaded_block Q in
  Steppers.init (Scenario.PEFRL Q) = Return self
  /\ Registry._finalize_flag simulator = true
  /\ map oid (Steppers._memory_blocks C) = [2%nat]
  /\ Steppers.step self C 0 (1 # 10) h = (Raise TypeError, h)
  /\ ~ PointMass.external_zero (Scenario.rod 2) h.
Proof.
  intros self simulator C h.
  assert (Hinit : Steppers.init (Scenario.PEFRL Q) = Return self) by reflexivity.
  split; [exact Hinit |].
  split; [vm_compute; reflexivity |].
  split; [vm_compute; reflexivity |].
  split.
  - exact (proj1 (proj2 (@step_raises_in_first_stage Q _ (World Q) _
                           (Scenario.PEFRL Q) self C 0 (1 # 10) h Hinit))).
  - intros (b & Hb & Hz). vm_compute in Hb. injection Hb as <-.
    vm_compute in Hz. discriminate Hz.
Defined.

(** ** Construction of the two steppers *)

Section TwoSteppers.

Variable T : Type.
Context {ScalarT : Scalar T}.
Variable H : Type.
Context {Blocks : Steppers.SymplecticSystemProtocol T H}.

Import Steppers.

(** C2.  The assertion of [step_methods] holds for PEFRL, whose mirrored
    lists have 9 steps and 5 prefactors, and construction builds 5
    stages.  It fails for PositionVerlet: mirroring its two steps gives
    3, but mirroring its single prefactor adds nothing, and 3 is not
    2 * 1 - 1; the construction raises AssertionError. *)
Theorem PositionVerlet_construction_raises :
  let steps := get_steps (PositionVerlet.class (H := H)) in
  let prefactors := get_prefactors (PositionVerlet.class (H := H)) in
  length (steps ++ slice_m2_rev steps) = 3%nat
  /\ length (prefactors ++ slice_m2_rev prefactors) = 1%nat
  /\ init (PositionVerlet.class (H := H)) = Raise AssertionError
  /\ length (get_steps (PEFRL.class (H := H))
             ++ slice_m2_rev (get_steps (PEFRL.class (H := H)))) = 9%nat
  /\ length (get_prefactors (PEFRL.class (H := H))
             ++ slice_m2_rev (get_prefactors (PEFRL.class (H := H)))) = 5%nat
  /\ exists self, init (PEFRL.class (H := H)) = Return self /\ n_stages self = 5%nat.
Proof.
  repeat split. eexists. split; reflexivity.
Qed.

End TwoSteppers.

Section FreePointMass.

Variable T : Type.
Context {ScalarT : Scalar T}.

Import Steppers.

(** C3.  A PositionVerlet step on a free point mass cannot be taken:
    constructing the stepper raises AssertionError, so the position is
    not advanced.  A step over the stage tuple that the remaining
    statements of [step_methods] would build raises TypeError as well, at
    the first call [kin_step(TimeStepper, system, time, dt)] of its first
    stage, which passes the bound method one argument too many. *)
Theorem PositionVerlet_step_raises (x v time dt : T) :
  let w := [Scenario.free_mass x v] in
  let C := Scenario.free_collection T in
  let steps := get_steps (Scenario.PositionVerlet T) in
  let prefactors := get_prefactors (Scenario.PositionVerlet T) in
  Scenario.construct_and_step (Scenario.PositionVerlet T) C time dt w
  = (Raise AssertionError, w)
  /\ fst (do_step (zip_longest (prefactors ++ slice_m2_rev prefactors)
                               (slice_even (steps ++ slice_m2_rev steps))
                               (slice_odd (steps ++ slice_m2_rev steps)))
                  C time dt w)
     = Raise TypeError.
Proof.
  split; reflexivity.
Qed.

End FreePointMass.

(** ** The time of a PEFRL step *)

Section PEFRLTime.

Variable T : Type.
Context {ScalarT : Scalar T}.
Variable H : Type.
Context {Blocks : Steppers.SymplecticSystemProtocol T H}.

Import Steppers.

(** C7 (defect of the code).  The coefficients are those of the
    specification: constructing PEFRL gives five stages whose prefactor
    methods, evaluated at [dt], are ξ·dt, χ·dt, (1 − 2(ξ + χ))·dt, χ·dt
    and ξ·dt, and in exact arithmetic these add up to [dt].  But [step]
    does not advance the time by them: in every scalar type, binary64
    included, on every collection, at every [time] and [dt], it raises
    TypeError at the first call of the first stage (the bound methods are
    called with the stepper as an extra argument) and returns no time. *)
Theorem PEFRL_step_returns_no_time
        (SystemCollection : SystemCollectionType T H) (time dt : T) (h : H) (q : Q) :
  (PEFRL.ξ (T := Q) == 0.1786178958448091
   /\ PEFRL.λ (T := Q) == - 0.2123418310626054
   /\ PEFRL.χ (T := Q) == - 0.06626458266981849
   /\ PEFRL.lambda_dash_coeff (T := Q) == 0.5 * (1 - 2 * PEFRL.λ)
   /\ PEFRL.xi_chi_dash_coeff (T := Q) == 1 - 2 * (PEFRL.ξ + PEFRL.χ))%Q
  /\ (PEFRL.ξ * q + PEFRL.χ * q + PEFRL.xi_chi_dash_coeff * q
      + PEFRL.χ * q + PEFRL.ξ * q == q)%Q
  /\ exists self : Stepper T H,
      init PEFRL.class = Return self
      /\ n_stages self = 5%nat
      /\ stage_prefactors (steps_and_prefactors self) dt
         = [ Some (mul PEFRL.ξ dt); Some (mul PEFRL.χ dt);
             Some (mul PEFRL.xi_chi_dash_coeff dt);
             Some (mul PEFRL.χ dt); Some (mul PEFRL.ξ dt) ]
      /\ step self SystemCollection time dt h = (Raise TypeError, h).
Proof.
  split; [| split].
  - unfold PEFRL.lambda_dash_coeff, PEFRL.xi_chi_dash_coeff, PEFRL.ξ, PEFRL.λ, PEFRL.χ.
    cbv - [Qplus Qmult Qminus Qopp Qeq]. unfold inject_Z.
    repeat split; try reflexivity; ring.
  - unfold PEFRL.xi_chi_dash_coeff, PEFRL.ξ, PEFRL.χ.
    cbv - [Qplus Qmult Qminus Qopp Qeq]. unfold inject_Z. ring.
  - eexists. split; [reflexivity |]. split; [reflexivity |].
    split; [reflexivity |].
    unfold step. cbn [steps_and_prefactors]. rewrite do_step_raises. reflexivity.
Qed.

End PEFRLTime.

(** ** The registry *)

Lemma list_insert_end (A : Type) (l : list A) (x : A) :
  list_insert l (Z.of_nat (length l)) x = l ++ [x].
Proof.
  unfold list_insert. cbv zeta.
  assert (E : (Z.of_nat (length l) <? 0)%Z = false) by (apply Z.ltb_ge; lia).
  rewrite !E, Z.ltb_irrefl, Nat2Z.id, firstn_all, skipn_all. reflexivity.
Qed.

Lemma norm_index_lt (n : nat) (i : Z) (k : nat) :
  norm_index n i = Some k -> (k < n)%nat.
Proof.
  unfold norm_index.
  destruct ((0 <=? i)%Z && (i <? Z.of_nat n)%Z) eqn:E1.
  - apply andb_true_iff in E1 as [E1 E2].
    apply Z.leb_le in E1. apply Z.ltb_lt in E2. intros [= <-]. lia.
  - destruct ((- Z.of_nat n <=? i)%Z && (i <? 0)%Z) eqn:E2; [| discriminate].
    apply andb_true_iff in E2 as [E2 E3].
    apply Z.leb_le in E2. apply Z.ltb_lt in E3. intros [= <-]. lia.
Qed.

Lemma getitem_setitem (A : Type) (l l' : list A) (i : Z) (x : A) :
  setitem l i x = Some l' -> getitem l' i = Some x.
Proof.
  unfold setitem, getitem.
  destruct (norm_index (length l) i) as [k |] eqn:E; [| discriminate].
  intros [= <-]. rewrite length_replace_nth, E.
  apply norm_index_lt in E.
  destruct (nth_error l k) as [y |] eqn:Ey.
  - eapply nth_error_replace_nth_eq; eauto.
  - apply nth_error_None in Ey. lia.
Qed.

(** Running the first statement of a method body. *)
Lemma bind_get (S B : Type) (k : S -> M S B) (s : S) : bind get k s = k s s.
Proof. reflexivity. Qed.

Lemma bind_modify (S B : Type) (f : S -> S) (k : unit -> M S B) (s : S) :
  bind (modify f) k s = k tt (f s).
Proof. reflexivity. Qed.

Lemma bind_assert (S B : Type) (b : bool) (k : unit -> M S B) (s : S) :
  bind (assert b) k s = if b then k tt s else (Raise AssertionError, s).
Proof. destruct b; reflexivity. Qed.

Lemma bind_Raise (S A B : Type) (c : M S A) (k : A -> M S B) (s s' : S) (e : exn) :
  c s = (Raise e, s') -> bind c k s = (Raise e, s').
Proof. intros E. unfold bind. now rewrite E. Qed.

Ltac run_in E :=
  repeat first
    [ rewrite bind_get in E
    | rewrite bind_modify in E
    | rewrite bind_assert in E ].

(** A relation between the state before and the state after a
    computation, whatever its outcome. *)
Section Preserves.

Context {S : Type}.

Lemma pure_ret (A : Type) (a : A) : pure (@ret S A a).
Proof. intros s res s' [= _ <-]. reflexivity. Qed.

Lemma pure_raise (A : Type) (e : exn) : pure (@raise S A e).
Proof. intros s res s' [= _ <-]. reflexivity. Qed.

Lemma pure_get : pure (@get S).
Proof. intros s res s' [= _ <-]. reflexivity. Qed.

Lemma pure_assert (b : bool) : pure (@assert S b).
Proof. destruct b; [apply pure_ret | apply pure_raise]. Qed.

Lemma pure_bind (A B : Type) (c : M S A) (k : A -> M S B) :
  pure c -> (forall a, pure (k a)) -> pure (bind c k).
Proof.
  intros Hc Hk s res s'. unfold bind.
  destruct (c s) as [[a | e] s1] eqn:E; intros E'.
  - apply Hc in E as ->. eapply Hk; eauto.
  - injection E' as _ <-. eapply Hc; eauto.
Qed.

Variable R : S -> S -> Prop.
Context {R_PreOrder : PreOrder R}.

Lemma preserves_from_pure (A : Type) (c : M S A) (s : S) :
  pure c -> preserves_from R s c.
Proof. intros Hc res s' E. apply Hc in E as ->. reflexivity. Qed.

Lemma preserves_from_modify (f : S -> S) (s : S) :
  R s (f s) -> preserves_from R s (modify f).
Proof. intros Hf res s' [= _ <-]. exact Hf. Qed.

Lemma preserves_from_get_bind (B : Type) (k : S -> M S B) (s : S) :
  preserves_from R s (k s) -> preserves_from R s (bind get k).
Proof. intros Hk res s' E. apply Hk in E. exact E. Qed.

Lemma preserves_from_pure_bind (A B : Type) (c : M S A) (k : A -> M S B) (s : S) :
  pure c ->
  (forall a, c s = (Return a, s) -> preserves_from R s (k a)) ->
  preserves_from R s (bind c k).
Proof.
  intros Hc Hk res s'. unfold bind.
  destruct (c s) as [[a | e] s1] eqn:E; intros E'.
  - pose proof (Hc _ _ _ E) as ->. eapply Hk; eauto.
  - injection E' as _ <-. apply Hc in E as ->. reflexivity.
Qed.

Lemma preserves_from_modify_bind (B : Type) (f : S -> S) (k : unit -> M S B) (s : S) :
  R s (f s) -> preserves_from R (f s) (k tt) ->
  preserves_from R s (bind (modify f) k).
Proof.
  intros Hf Hk res s' E. unfold bind, modify in E.
  transitivity (f s); [exact Hf | eapply Hk; eauto].
Qed.

Lemma preserves_from_bind (A B : Type) (c : M S A) (k : A -> M S B) (s : S) :
  preserves_from R s c ->
  (forall a s1, c s = (Return a, s1) -> preserves_from R s1 (k a)) ->
  preserves_from R s (bind c k).
Proof.
  intros Hc Hk res s'. unfold bind.
  destruct (c s) as [[a | e] s1] eqn:E; intros E'.
  - transitivity s1; [eapply Hc; eauto | eapply Hk; eauto].
  - injection E' as _ <-. eapply Hc; eauto.
Qed.

Lemma preserves_for_each (A : Type) (l : list A) (f : A -> M S unit) :
  (forall x, preserves R (f x)) -> preserves R (for_each l f).
Proof.
  intros Hf. induction l as [| x l IH]; intros s; cbn [for_each].
  - apply preserves_from_pure, pure_ret.
  - apply preserves_from_bind; [apply Hf | intros a s1 _; apply IH].
Qed.

End Preserves.

Section RegistryFacts.

Variable T H : Type.
Context {Ext : Registry.Collaborators T H}.
Import Registry.

Local Abbreviation Sim := (Simulator (Ext := Ext)).

(** C9.  For a registry of [n] systems and an integer [i] with
    [-n <= i < n], index resolution returns [i] itself and leaves the
    registry as it is: a negative index in range is accepted and is not
    replaced by the position [n + i] it denotes.  Any other integer fails
    the range assertion. *)
Theorem index_resolution_returns_index_unchanged (r : Sim) (i : Z) :
  let n := Z.of_nat (length (_systems r)) in
  ((- n <= i < n)%Z -> _get_sys_idx_if_valid (ByIndex i) r = (Return i, r))
  /\ ((- n <= i < 0)%Z -> fst (_get_sys_idx_if_valid (ByIndex i) r) <> Return (n + i)%Z)
  /\ (~ (- n <= i < n)%Z ->
      _get_sys_idx_if_valid (ByIndex i) r = (Raise AssertionError, r)).
Proof.
  intros n.
  assert (Hin : (- n <= i < n)%Z ->
                _get_sys_idx_if_valid (ByIndex i) r = (Return i, r)).
  { intros [Hlo Hhi]. unfold _get_sys_idx_if_valid, bind, get, assert. fold n.
    apply Z.leb_le in Hlo. apply Z.ltb_lt in Hhi. now rewrite Hlo, Hhi. }
  split; [exact Hin |]. split.
  - intros [Hlo Hhi]. rewrite Hin by lia. cbn [fst]. intros [= E]. lia.
  - intros Hout. unfold _get_sys_idx_if_valid, bind, get, assert. fold n.
    destruct (- n <=? i)%Z eqn:Hlo; [| reflexivity].
    destruct (i <? n)%Z eqn:Hhi; [| reflexivity].
    apply Z.leb_le in Hlo. apply Z.ltb_lt in Hhi. lia.
Qed.

Lemma finalize_sets_flag (r r' : Sim) :
  finalize r = (Return tt, r') -> _finalize_flag r' = true.
Proof.
  unfold finalize. intros E. run_in E.
  destruct (negb (_finalize_flag r)); [| discriminate E].
  run_in E.
  apply bind_Return in E as ([] & r1 & _ & E). run_in E.
  destruct (_feature_group_finalize r1) as [ops |]; [| discriminate E].
  apply bind_Return in E as ([] & r2 & _ & E). run_in E.
  now injection E as <-.
Qed.

(** C6.  On a registry on which [finalize] has succeeded, a second
    [finalize] raises the error of its first statement, the assertion on
    the finalize flag, and leaves the registry exactly as the first call
    left it. *)
Theorem finalize_twice_raises (r r' : Sim) :
  finalize r = (Return tt, r') ->
  finalize r' = (Raise AssertionError, r').
Proof.
  intros E. apply finalize_sets_flag in E.
  unfold finalize, bind, get, assert. now rewrite E.
Qed.


(** *** Frames *)

#[local] Instance setup_frame_PreOrder : PreOrder (@setup_frame T H Ext).
Proof.
  split.
  - intros r. repeat split.
  - intros r1 r2 r3 (A1 & A2 & A3 & A4 & A5 & A6 & A7) (B1 & B2 & B3 & B4 & B5 & B6 & B7).
    repeat split; congruence.
Qed.

#[local] Instance synchronize_grows_PreOrder : PreOrder (@synchronize_grows T H Ext).
Proof.
  split.
  - intros r op Hop. exact Hop.
  - intros r1 r2 r3 G1 G2 op Hop. auto.
Qed.

Lemma pure_lift (A : Type) (x : result A) : pure (@lift Sim A x).
Proof. destruct x; [apply pure_ret | apply pure_raise]. Qed.

Lemma pure__check_type (x : SysObj) : pure (_check_type x).
Proof.
  unfold _check_type. apply pure_bind; [apply pure_get | intros self].
  destruct (negb _); [apply pure_raise |].
  destruct (negb _); [apply pure_raise | apply pure_ret].
Qed.

Lemma pure___getitem__ (idx : Z) : pure (__getitem__ idx).
Proof.
  unfold __getitem__. apply pure_bind; [apply pure_get | intros self].
  destruct (getitem _ _); [apply pure_ret | apply pure_raise].
Qed.

Lemma pure___len__ : pure (@__len__ T H Ext).
Proof.
  unfold __len__. apply pure_bind; [apply pure_get | intros self; apply pure_ret].
Qed.

Lemma insert_preserves (R : Sim -> Sim -> Prop) (R_PreOrder : PreOrder R)
      (idx : Z) (x : SysObj) :
  (forall s l, R s (set_systems l s)) ->
  preserves R (insert idx x).
Proof.
  intros HR s. unfold insert.
  apply preserves_from_pure_bind; try exact _; [apply pure__check_type | intros _ _].
  apply preserves_from_get_bind; try exact _.
  apply preserves_from_modify. apply HR.
Qed.

Lemma append_preserves (R : Sim -> Sim -> Prop) (R_PreOrder : PreOrder R)
      (x : SysObj) :
  (forall s l, R s (set_systems l s)) ->
  preserves R (append x).
Proof.
  intros HR s. unfold append.
  apply preserves_from_pure_bind; try exact _; [apply pure___len__ | intros n _].
  now apply insert_preserves.
Qed.

Lemma append_setup_frame (x : SysObj) : preserves setup_frame (append x).
Proof. apply append_preserves; try exact _. intros s l. repeat split. Qed.

Lemma append_synchronize_grows (x : SysObj) : preserves synchronize_grows (append x).
Proof. apply append_preserves; try exact _. intros s l op Hop. exact Hop. Qed.

Lemma warnings_returns (handle : nat) (contact : _Contact) (r : Sim) :
  warnings handle contact r = (Return tt, r).
Proof.
  unfold warnings, bind, get.
  destruct (negb (is_last (_feature_group_synchronize r) (ContactOwner handle)));
    [| reflexivity].
  destruct (_contact_cls contact) as [cls |]; reflexivity.
Qed.


(** *** The operator group *)

Lemma In_replace_nth_old (A : Type) (c : list (list A)) (k : nat)
      (slot extra : list A) (x : A) :
  nth_error c k = Some slot ->
  In x (concat c) -> In x (concat (replace_nth c k (slot ++ extra))).
Proof.
  revert k. induction c as [| l c IH]; intros [| k] E Hin; simpl in *;
    try discriminate.
  - injection E as ->. rewrite in_app_iff in *. rewrite in_app_iff.
    tauto.
  - rewrite in_app_iff in *. destruct Hin; [tauto | right; eauto].
Qed.

Lemma In_replace_nth_new (A : Type) (c : list (list A)) (k : nat)
      (slot extra : list A) (x : A) :
  nth_error c k = Some slot ->
  In x extra -> In x (concat (replace_nth c k (slot ++ extra))).
Proof.
  revert k. induction c as [| l c IH]; intros [| k] E Hin; simpl in *;
    try discriminate.
  - rewrite !in_app_iff. tauto.
  - rewrite in_app_iff. right. eauto.
Qed.

Lemma add_operators_grows (g g' : OperatorGroupFIFO) (o : Owner)
      (ops : list Operator) (op : Operator) :
  add_operators g o ops = Some g' ->
  In op (operators g) -> In op (operators g').
Proof.
  unfold add_operators, operators.
  destruct (list_index Owner_eqb (_operator_ids g) o) as [idx |]; [| discriminate].
  destruct (nth_error (_operator_collection g) idx) as [slot |] eqn:E; [| discriminate].
  intros [= <-]. cbn [_operator_collection]. now apply In_replace_nth_old.
Qed.

Lemma add_operators_adds (g g' : OperatorGroupFIFO) (o : Owner)
      (ops : list Operator) (op : Operator) :
  add_operators g o ops = Some g' ->
  In op ops -> In op (operators g').
Proof.
  unfold add_operators, operators.
  destruct (list_index Owner_eqb (_operator_ids g) o) as [idx |]; [| discriminate].
  destruct (nth_error (_operator_collection g) idx) as [slot |] eqn:E; [| discriminate].
  intros [= <-]. cbn [_operator_collection]. now apply In_replace_nth_new.
Qed.

(** *** One declaration at finalize *)

Lemma pure_warnings (handle : nat) (contact : _Contact) : pure (warnings handle contact).
Proof. intros s res s'. rewrite warnings_returns. now intros [= _ <-]. Qed.

Lemma _finalize_one_contact_preserves (R : Sim -> Sim -> Prop)
      (R_PreOrder : PreOrder R) (handle : nat) :
  (forall s o ops g,
      add_operators (_feature_group_synchronize s) o ops = Some g ->
      R s (set_synchronize g s)) ->
  preserves R (_finalize_one_contact handle).
Proof.
  intros HR s. unfold _finalize_one_contact.
  apply preserves_from_get_bind; try exact _.
  destruct (nth_error (contact_objects s) handle) as [contact |];
    [| apply preserves_from_pure; try exact _; apply pure_raise].
  destruct (_Contact_id contact) as [i j].
  apply preserves_from_pure_bind; try exact _; [apply pure_lift | intros inst _].
  apply preserves_from_pure_bind; try exact _; [apply pure___getitem__ | intros s1 _].
  apply preserves_from_pure_bind; try exact _; [apply pure___getitem__ | intros s2 _].
  apply preserves_from_pure_bind; try exact _; [apply pure_lift | intros _ _].
  apply preserves_from_get_bind; try exact _.
  destruct (add_operators _ _ _) as [g |] eqn:E;
    [| apply preserves_from_pure; try exact _; apply pure_raise].
  apply preserves_from_modify_bind; try exact _; [eapply HR; eauto |].
  apply preserves_from_pure; try exact _; apply pure_warnings.
Qed.

Lemma _finalize_one_contact_setup_frame (handle : nat) :
  preserves setup_frame (_finalize_one_contact handle).
Proof.
  apply _finalize_one_contact_preserves; try exact _. intros; repeat split.
Qed.

Lemma _finalize_one_contact_synchronize_grows (handle : nat) :
  preserves synchronize_grows (_finalize_one_contact handle).
Proof.
  apply _finalize_one_contact_preserves; try exact _.
  intros s o ops g E op Hop. cbn. eapply add_operators_grows; eauto.
Qed.

Lemma _finalize_one_contact_without_using (handle : nat) (c : _Contact) (r : Sim) :
  nth_error (contact_objects r) handle = Some c ->
  _contact_cls c = None ->
  _finalize_one_contact handle r = (Raise RuntimeError, r).
Proof.
  intros Hc Hcls. unfold _finalize_one_contact, bind, get. rewrite Hc.
  destruct (_Contact_id c) as [i j]. unfold instantiate. now rewrite Hcls.
Qed.

Lemma _finalize_one_contact_adds (handle : nat) (c : _Contact) (r r' : Sim) :
  nth_error (contact_objects r) handle = Some c ->
  _finalize_one_contact handle r = (Return tt, r') ->
  exists inst,
    instantiate c = Return inst
    /\ In (ContactOperator inst SystemsList (first_sys_idx c) (second_sys_idx c))
          (operators (_feature_group_synchronize r')).
Proof.
  intros Hc E. unfold _finalize_one_contact in E.
  run_in E. rewrite Hc in E. cbn [_Contact_id] in E.
  apply bind_Return in E as (inst & s1 & Ei & E).
  destruct (instantiate c) as [inst' |] eqn:Einst; [| discriminate Ei].
  cbn [lift] in Ei. injection Ei as <- <-.
  exists inst'. split; [reflexivity |].
  apply bind_Return in E as (system_one & s2 & E1 & E).
  apply pure___getitem__ in E1 as ->.
  apply bind_Return in E as (system_two & s3 & E2 & E).
  apply pure___getitem__ in E2 as ->.
  apply bind_Return in E as ([] & s4 & E3 & E).
  apply pure_lift in E3 as ->.
  run_in E.
  destruct (add_operators _ _ _) as [g |] eqn:Eg; [| discriminate E].
  run_in E. rewrite warnings_returns in E. injection E as <-.
  cbn [_feature_group_synchronize set_synchronize].
  eapply add_operators_adds; [exact Eg | now left].
Qed.


(** *** The loop of [_finalize_contact] *)

Lemma contacts_loop_setup_frame (cs : list nat) :
  preserves setup_frame (for_each cs _finalize_one_contact).
Proof.
  apply preserves_for_each; try exact _. apply _finalize_one_contact_setup_frame.
Qed.

Lemma contacts_loop_synchronize_grows (cs : list nat) :
  preserves synchronize_grows (for_each cs _finalize_one_contact).
Proof.
  apply preserves_for_each; try exact _.
  apply _finalize_one_contact_synchronize_grows.
Qed.

Lemma contacts_loop_raises (cs : list nat) (h : nat) (c : _Contact) (r : Sim) :
  In h cs ->
  nth_error (contact_objects r) h = Some c ->
  _contact_cls c = None ->
  exists e r',
    for_each cs _finalize_one_contact r = (Raise e, r') /\ setup_frame r r'.
Proof.
  revert r. induction cs as [| h0 cs IH]; intros r Hin Hc Hcls; [contradiction |].
  cbn [for_each]. unfold bind.
  destruct (_finalize_one_contact h0 r) as [[[] | e] r1] eqn:E.
  - pose proof (_finalize_one_contact_setup_frame h0 r E) as F.
    destruct Hin as [-> | Hin].
    + rewrite (_finalize_one_contact_without_using h r Hc Hcls) in E. discriminate E.
    + destruct (IH r1 Hin) as (e & r' & E' & F'); [| assumption |].
      * destruct F as (_ & _ & _ & _ & _ & _ & ->). exact Hc.
      * exists e, r'. split; [exact E' | etransitivity; eauto].
  - exists e, r1. split; [reflexivity |].
    apply (_finalize_one_contact_setup_frame h0 r E).
Qed.

Lemma contacts_loop_adds (cs : list nat) (r r' : Sim) :
  for_each cs _finalize_one_contact r = (Return tt, r') ->
  forall h c,
    In h cs ->
    nth_error (contact_objects r) h = Some c ->
    exists inst,
      instantiate c = Return inst
      /\ In (ContactOperator inst SystemsList (first_sys_idx c) (second_sys_idx c))
            (operators (_feature_group_synchronize r')).
Proof.
  revert r. induction cs as [| h0 cs IH]; intros r E h c Hin Hc; [contradiction |].
  cbn [for_each] in E. apply bind_Return in E as ([] & r1 & E1 & E2).
  destruct Hin as [-> | Hin].
  - destruct (_finalize_one_contact_adds h r Hc E1) as (inst & Hi & Hop).
    exists inst. split; [exact Hi |].
    apply (contacts_loop_synchronize_grows cs r1 E2). exact Hop.
  - apply (IH r1 E2 h c Hin).
    destruct (_finalize_one_contact_setup_frame h0 r E1) as (_ & _ & _ & _ & _ & _ & ->).
    exact Hc.
Qed.

Lemma contacts_loop_systems (cs : list nat) :
  preserves (fun r r' : Sim => _systems r' = _systems r)
            (for_each cs _finalize_one_contact).
Proof.
  assert (P : PreOrder (fun r r' : Sim => _systems r' = _systems r)).
  { split; [intros r; reflexivity | intros r1 r2 r3 E1 E2; congruence]. }
  apply preserves_for_each; try exact _. intros h.
  apply _finalize_one_contact_preserves; try exact _. reflexivity.
Qed.

(** *** [_finalize_contact] and the finalize methods of the other modules *)

Lemma _finalize_contact_deleted (r : Sim) :
  _contacts r = None -> _finalize_contact r = (Raise AttributeError, r).
Proof. intros E. unfold _finalize_contact, bind, get. now rewrite E. Qed.

Lemma _finalize_contact_raises (cs : list nat) (h : nat) (c : _Contact) (r : Sim) :
  _contacts r = Some cs ->
  In h cs ->
  nth_error (contact_objects r) h = Some c ->
  _contact_cls c = None ->
  exists e r', _finalize_contact r = (Raise e, r') /\ setup_frame r r'.
Proof.
  intros Ecs Hin Hc Hcls.
  destruct (contacts_loop_raises cs h r Hin Hc Hcls) as (e & r' & E & F).
  exists e, r'. split; [| exact F].
  unfold _finalize_contact, bind, get. rewrite Ecs.
  fold (@bind Sim unit unit). unfold bind. now rewrite E.
Qed.

Lemma _finalize_contact_returns (r r' : Sim) :
  _finalize_contact r = (Return tt, r') ->
  exists cs r1,
    _contacts r = Some cs
    /\ for_each cs _finalize_one_contact r = (Return tt, r1)
    /\ r' = set_contacts None r1.
Proof.
  unfold _finalize_contact. intros E. run_in E.
  destruct (_contacts r) as [cs |]; [| discriminate E].
  apply bind_Return in E as ([] & r1 & E1 & E2).
  injection E2 as <-. now exists cs, r1.
Qed.

Lemma _finalize_contact_preserves (R : Sim -> Sim -> Prop) (R_PreOrder : PreOrder R) :
  (forall s o ops g,
      add_operators (_feature_group_synchronize s) o ops = Some g ->
      R s (set_synchronize g s)) ->
  (forall s, R s (set_contacts None s)) ->
  preserves R _finalize_contact.
Proof.
  intros HS HC s. unfold _finalize_contact.
  apply preserves_from_get_bind; try exact _.
  destruct (_contacts s) as [cs |];
    [| apply preserves_from_pure; try exact _; apply pure_raise].
  apply preserves_from_bind; try exact _.
  - apply preserves_for_each; try exact _. intros h.
    now apply _finalize_one_contact_preserves.
  - intros _ s1 _. apply preserves_from_modify. apply HC.
Qed.

Lemma _finalize_one_feature_preserves (R : Sim -> Sim -> Prop)
      (R_PreOrder : PreOrder R) (module : FeatureModule) (handle : nat) :
  respects_materialize R ->
  preserves R (_finalize_one_feature module handle).
Proof.
  intros (HS & HV & HR & HC & _) s. unfold _finalize_one_feature.
  apply preserves_from_get_bind; try exact _.
  destruct (nth_error (feature_objects s) handle) as [feature |];
    [| apply preserves_from_pure; try exact _; apply pure_raise].
  destruct (_feature_cls feature) as [k |];
    [| apply preserves_from_pure; try exact _; apply pure_raise].
  destruct module.
  - destruct (add_operators _ _ _) as [g |] eqn:E;
      [| apply preserves_from_pure; try exact _; apply pure_raise].
    apply preserves_from_modify. eapply HS; eauto.
  - apply preserves_from_modify_bind; try exact _; [apply HV |].
    apply preserves_from_modify. apply HR.
  - apply preserves_from_modify. apply HC.
Qed.

Lemma _finalize_feature_preserves (R : Sim -> Sim -> Prop)
      (R_PreOrder : PreOrder R) (module : FeatureModule) :
  respects_materialize R ->
  preserves R (_finalize_feature module).
Proof.
  intros HR s. unfold _finalize_feature.
  apply preserves_from_get_bind; try exact _.
  destruct (pending module s) as [l |];
    [| apply preserves_from_pure; try exact _; apply pure_raise].
  apply preserves_from_bind; try exact _.
  - apply preserves_for_each; try exact _. intros h.
    now apply _finalize_one_feature_preserves.
  - intros _ s1 _. apply preserves_from_modify. apply HR.
Qed.

Lemma _finalize_feature_returns (module : FeatureModule) (r r' : Sim) :
  _finalize_feature module r = (Return tt, r') ->
  exists l r1,
    pending module r = Some l
    /\ for_each l (_finalize_one_feature module) r = (Return tt, r1)
    /\ r' = set_pending module None r1.
Proof.
  unfold _finalize_feature. intros E. run_in E.
  destruct (pending module r) as [l |]; [| discriminate E].
  apply bind_Return in E as ([] & r1 & E1 & E2).
  injection E2 as <-. now exists l, r1.
Qed.

Lemma call_finalize_preserves (R : Sim -> Sim -> Prop) (R_PreOrder : PreOrder R)
      (op : FinalizeOperator) :
  respects_materialize R ->
  (forall s, R s (set_contacts None s)) ->
  preserves R (call_finalize op).
Proof.
  intros HR HC. destruct op as [| module]; cbn [call_finalize].
  - apply _finalize_contact_preserves; try exact _; [apply HR | exact HC].
  - now apply _finalize_feature_preserves.
Qed.

(** *** Frames of the finalize methods *)

Lemma setup_frame_respects_materialize : respects_materialize setup_frame.
Proof.
  repeat split; try (destruct module; reflexivity).
Qed.

Lemma synchronize_grows_respects_materialize : respects_materialize synchronize_grows.
Proof.
  split; [| repeat split; intros; intros op Hop; try (destruct module); exact Hop].
  intros s o ops g E op Hop. cbn. eapply add_operators_grows; eauto.
Qed.

Lemma same_systems_PreOrder :
  PreOrder (fun r r' : Sim => _systems r' = _systems r).
Proof.
  split; [intros r; reflexivity | intros r1 r2 r3 E1 E2; congruence].
Qed.

Lemma same_systems_respects_materialize :
  respects_materialize (fun r r' : Sim => _systems r' = _systems r).
Proof.
  repeat split; try (destruct module; reflexivity).
Qed.

#[local] Instance deleted_stays_PreOrder (op : FinalizeOperator) :
  PreOrder (@deleted_stays T H Ext op).
Proof.
  split.
  - intros r Hr. exact Hr.
  - intros r1 r2 r3 D1 D2 Hr. auto.
Qed.

Lemma deleted_stays_respects_materialize (op : FinalizeOperator) :
  respects_materialize (deleted_stays op).
Proof.
  repeat split.
  - intros s o ops g _ Hd. destruct op as [| m]; [exact Hd | destruct m; exact Hd].
  - intros s l Hd. destruct op as [| m]; [exact Hd | destruct m; exact Hd].
  - intros s l Hd. destruct op as [| m]; [exact Hd | destruct m; exact Hd].
  - intros s l Hd. destruct op as [| m]; [exact Hd | destruct m; exact Hd].
  - intros s module Hd. destruct op as [| m]; [destruct module; exact Hd |].
    destruct m, module; try exact Hd; reflexivity.
Qed.

Lemma deleted_stays_set_contacts (op : FinalizeOperator) (s : Sim) :
  deleted_stays op s (set_contacts None s).
Proof.
  intros Hd. destruct op as [| m]; [reflexivity | destruct m; exact Hd].
Qed.

(** A finalize method that returns has deleted its pending declarations. *)
Lemma call_finalize_deletes (op : FinalizeOperator) (r r' : Sim) :
  call_finalize op r = (Return tt, r') -> deleted_by op r'.
Proof.
  destruct op as [| module]; cbn [call_finalize deleted_by]; intros E.
  - apply _finalize_contact_returns in E as (cs & r1 & _ & _ & ->). reflexivity.
  - apply _finalize_feature_returns in E as (l & r1 & _ & _ & ->).
    destruct module; reflexivity.
Qed.

(** *** The loop over the finalize group *)

Lemma finalize_group_deletes (ops : list FinalizeOperator) (op : FinalizeOperator)
      (r r' : Sim) :
  for_each ops call_finalize r = (Return tt, r') ->
  In op ops ->
  deleted_by op r'.
Proof.
  revert r. induction ops as [| op0 ops IH]; intros r E Hin; [contradiction |].
  cbn [for_each] in E. apply bind_Return in E as ([] & r1 & E1 & E2).
  destruct Hin as [-> | Hin]; [| eauto].
  apply call_finalize_deletes in E1.
  refine (@preserves_for_each _ (deleted_stays op) _ _ ops call_finalize _ _ _ _ E2 E1).
  intros op'. apply call_finalize_preserves; try exact _.
  - apply deleted_stays_respects_materialize.
  - apply deleted_stays_set_contacts.
Qed.

Lemma finalize_group_synchronize_grows (ops : list FinalizeOperator) :
  preserves synchronize_grows (for_each ops call_finalize).
Proof.
  apply preserves_for_each; try exact _. intros op.
  apply call_finalize_preserves; try exact _.
  - apply synchronize_grows_respects_materialize.
  - intros s op' Hop. exact Hop.
Qed.

Lemma finalize_group_same_systems (ops : list FinalizeOperator) :
  preserves (fun r r' : Sim => _systems r' = _systems r) (for_each ops call_finalize).
Proof.
  pose proof same_systems_PreOrder as P.
  apply preserves_for_each; try exact _. intros op.
  apply call_finalize_preserves; try exact _.
  - apply same_systems_respects_materialize.
  - reflexivity.
Qed.

(** The finalize methods of the other modules leave the contacts alone. *)
Lemma feature_methods_setup_frame (ops : list FinalizeOperator) :
  ~ In FinalizeContact ops ->
  preserves setup_frame (for_each ops call_finalize).
Proof.
  induction ops as [| op ops IH]; intros Hnot s; cbn [for_each].
  - apply preserves_from_pure; try exact _. apply pure_ret.
  - apply preserves_from_bind; try exact _.
    + destruct op as [| module]; [exfalso; apply Hnot; now left |].
      cbn [call_finalize]. apply _finalize_feature_preserves; try exact _.
      apply setup_frame_respects_materialize.
    + intros _ s1 _. apply IH. intros Hin. apply Hnot. now right.
Qed.

(** With a pending declaration that has no contact class, the loop over
    a finalize group that holds [_finalize_contact] raises. *)
Lemma finalize_group_raises (ops : list FinalizeOperator) (cs : list nat) (h : nat)
      (c : _Contact) (r : Sim) :
  In FinalizeContact ops ->
  _contacts r = Some cs ->
  In h cs ->
  nth_error (contact_objects r) h = Some c ->
  _contact_cls c = None ->
  exists e r',
    for_each ops call_finalize r = (Raise e, r')
    /\ setup_frame r r'.
Proof.
  revert r. induction ops as [| op ops IH]; intros r Hin Hcs Hh Hc Hcls;
    [contradiction |].
  cbn [for_each]. unfold bind.
  destruct op as [| module].
  - cbn [call_finalize].
    destruct (@_finalize_contact_raises cs h c r Hcs Hh Hc Hcls) as (e & r' & E & F).
    exists e, r'. rewrite E. now split.
  - destruct Hin as [Hin | Hin]; [discriminate Hin |].
    destruct (call_finalize (FinalizeFeature module) r) as [[[] | e] r1] eqn:E;
      pose proof (@_finalize_feature_preserves setup_frame _ module
                    setup_frame_respects_materialize _ _ _ E) as F.
    + destruct (IH r1 Hin) as (e & r' & E' & F').
      * destruct F as (_ & _ & _ & _ & _ & -> & _). exact Hcs.
      * exact Hh.
      * destruct F as (_ & _ & _ & _ & _ & _ & ->). exact Hc.
      * exact Hcls.
      * exists e, r'. split; [exact E' | etransitivity; eauto].
    + exists e, r1. now split.
Qed.

(** When the loop over the finalize group returns, every declaration that
    was pending has its operator in the synchronize group. *)
Lemma finalize_group_adds (ops : list FinalizeOperator) (cs : list nat) (h : nat)
      (c : _Contact) (r r' : Sim) :
  for_each ops call_finalize r = (Return tt, r') ->
  In FinalizeContact ops ->
  _contacts r = Some cs ->
  In h cs ->
  nth_error (contact_objects r) h = Some c ->
  exists inst,
    instantiate c = Return inst
    /\ In (ContactOperator inst SystemsList (first_sys_idx c) (second_sys_idx c))
          (operators (_feature_group_synchronize r')).
Proof.
  revert r. induction ops as [| op ops IH]; intros r E Hin Hcs Hh Hc;
    [contradiction |].
  cbn [for_each] in E. apply bind_Return in E as ([] & r1 & E1 & E2).
  destruct op as [| module].
  - cbn [call_finalize] in E1.
    apply _finalize_contact_returns in E1 as (cs' & r2 & Hcs' & E1 & ->).
    assert (cs' = cs) as -> by congruence.
    destruct (@contacts_loop_adds cs r r2 E1 h c Hh Hc) as (inst & Hi & Hop).
    exists inst. split; [exact Hi |].
    apply (finalize_group_synchronize_grows ops _ E2). exact Hop.
  - destruct Hin as [Hin | Hin]; [discriminate Hin |].
    pose proof (@_finalize_feature_preserves setup_frame _ module
                  setup_frame_respects_materialize _ _ _ E1)
      as (_ & _ & _ & _ & _ & F1 & F2).
    apply (IH r1 E2 Hin); congruence.
Qed.

(** *** [finalize] *)

Lemma finalize_returns (ops : list FinalizeOperator) (r r' : Sim) :
  finalize r = (Return tt, r') ->
  _feature_group_finalize r = Some ops ->
  let blocks := construct_memory_block_structures (_systems r) in
  exists r1 r2,
    for_each blocks append (set_memory_blocks blocks r) = (Return tt, r1)
    /\ for_each ops call_finalize r1 = (Return tt, r2)
    /\ r' = set_finalize_flag true (set_finalize_group None r2).
Proof.
  intros E Hops blocks. unfold finalize in E. run_in E.
  destruct (negb (_finalize_flag r)); [| discriminate E].
  run_in E. cbn [_memory_blocks set_memory_blocks] in E. fold blocks in E.
  apply bind_Return in E as ([] & r1 & E1 & E). run_in E.
  pose proof (@preserves_for_each _ setup_frame _ _ blocks append
                append_setup_frame _ _ _ E1) as (_ & _ & _ & F & _).
  cbn [set_memory_blocks _feature_group_finalize] in F.
  rewrite F, Hops in E.
  apply bind_Return in E as ([] & r2 & E2 & E). run_in E.
  injection E as <-.
  now exists r1, r2.
Qed.

Lemma pure__get_sys_idx_if_valid (x : SysArg) : pure (_get_sys_idx_if_valid x).
Proof.
  unfold _get_sys_idx_if_valid. apply pure_bind; [apply pure_get | intros self].
  destruct x as [i | s].
  - apply pure_bind; [apply pure_assert | intros _; apply pure_ret].
  - apply pure_bind; [apply pure__check_type | intros _].
    destruct (list_index _ _ _); [apply pure_ret | apply pure_raise].
Qed.

Lemma append_returns (x : SysObj) (r r' : Sim) :
  append x r = (Return tt, r') -> r' = set_systems (_systems r ++ [x]) r.
Proof.
  intros E. unfold append, __len__ in E. run_in E.
  unfold bind at 1, ret at 1 in E. unfold insert in E.
  apply bind_Return in E as (? & r2 & E0 & E).
  apply pure__check_type in E0 as ->. run_in E. injection E as <-.
  now rewrite list_insert_end.
Qed.

Lemma append_raises (x : SysObj) (e : exn) (r r' : Sim) :
  append x r = (Raise e, r') -> r' = r.
Proof.
  unfold append, __len__, insert, bind, get, ret.
  destruct (_check_type x r) as [[b | e'] r1] eqn:E0;
    apply pure__check_type in E0 as ->; [discriminate | now intros [= _ <-]].
Qed.

Lemma appended_systems (blocks : list SysObj) (r r' : Sim) :
  for_each blocks append r = (Return tt, r') ->
  _systems r' = _systems r ++ blocks.
Proof.
  revert r. induction blocks as [| b blocks IH]; intros r E.
  - injection E as <-. now rewrite app_nil_r.
  - cbn [for_each] in E. apply bind_Return in E as ([] & r1 & E1 & E2).
    apply IH in E2. rewrite E2. apply append_returns in E1 as ->.
    cbn [_systems set_systems]. now rewrite <- app_assoc.
Qed.

(** However far the loop that appends the blocks gets, what it has
    appended is a prefix of the blocks. *)
Lemma appended_prefix (blocks : list SysObj) (res : result unit) (r r' : Sim) :
  for_each blocks append r = (res, r') ->
  exists k, _systems r' = _systems r ++ firstn k blocks.
Proof.
  revert r. induction blocks as [| b blocks IH]; intros r E.
  - injection E as _ <-. exists 0%nat. now rewrite app_nil_r.
  - cbn [for_each] in E. unfold bind in E.
    destruct (append b r) as [[[] | e] r1] eqn:E1.
    + apply IH in E as (k & ->). apply append_returns in E1 as ->.
      exists (S k). cbn [_systems set_systems firstn]. now rewrite <- app_assoc.
    + injection E as _ <-. apply append_raises in E1 as ->.
      exists 0%nat. now rewrite app_nil_r.
Qed.

(** *** After finalize *)

Lemma finalize_deletes (ops : list FinalizeOperator) (op : FinalizeOperator)
      (r r' : Sim) :
  finalize r = (Return tt, r') ->
  _feature_group_finalize r = Some ops ->
  In op ops ->
  deleted_by op r'.
Proof.
  intros E Hops Hin.
  destruct (finalize_returns r E Hops) as (r1 & r2 & _ & E2 & ->).
  pose proof (finalize_group_deletes ops op r1 E2 Hin) as Hd.
  destruct op as [| module]; [exact Hd | destruct module; exact Hd].
Qed.

Lemma detect_contact_between_without_contacts (first second : SysArg) (r : Sim) :
  _contacts r = None ->
  exists e now,
    detect_contact_between first second r = (Raise e, now)
    /\ _systems now = _systems r
    /\ _feature_group_synchronize now = _feature_group_synchronize r
    /\ _contacts now = None
    /\ _finalize_flag now = _finalize_flag r
    /\ (forall i j,
          _get_sys_idx_if_valid first r = (Return i, r) ->
          _get_sys_idx_if_valid second r = (Return j, r) ->
          e = AttributeError).
Proof.
  intros Hc. unfold detect_contact_between. unfold bind at 1.
  destruct (_get_sys_idx_if_valid first r) as [[i | e] r1] eqn:E1;
    pose proof (pure__get_sys_idx_if_valid first _ E1) as ->.
  - unfold bind at 1.
    destruct (_get_sys_idx_if_valid second r) as [[j | e] r1] eqn:E2;
      pose proof (pure__get_sys_idx_if_valid second _ E2) as ->.
    + unfold new_contact, bind, get, modify, ret.
      cbn [_contacts set_contact_objects]. rewrite Hc.
      eexists _, _. split; [reflexivity |]. repeat split; auto.
    + exists e, r. repeat split; auto. intros i' j' _ [=].
  - exists e, r. repeat split; auto. intros i' j' [=].
Qed.

Lemma declare_feature_without_pending (module : FeatureModule) (system : SysArg)
      (r : Sim) :
  pending module r = None ->
  exists e now,
    declare_feature module system r = (Raise e, now)
    /\ _systems now = _systems r
    /\ _feature_group_synchronize now = _feature_group_synchronize r
    /\ _feature_group_constrain_values now = _feature_group_constrain_values r
    /\ _feature_group_constrain_rates now = _feature_group_constrain_rates r
    /\ _feature_group_callback now = _feature_group_callback r
    /\ pending module now = None
    /\ _finalize_flag now = _finalize_flag r
    /\ (forall i, _get_sys_idx_if_valid system r = (Return i, r) ->
                  e = AttributeError).
Proof.
  intros Hp. unfold declare_feature. unfold bind at 1.
  destruct (_get_sys_idx_if_valid system r) as [[i | e] r1] eqn:E1;
    pose proof (pure__get_sys_idx_if_valid system _ E1) as ->.
  - unfold new_feature, bind, get, modify, ret.
    assert (Hp' : forall l, pending module (set_feature_objects l r) = None)
      by (intros l; destruct module; exact Hp).
    rewrite Hp'.
    eexists _, _. split; [reflexivity |]. repeat split; auto.
  - exists e, r. repeat split; auto. intros i' [=].
Qed.

(** C4 (amended).  After a [finalize] that succeeded, the registration of
    features fails: declaring a contact, when the simulator mixes in the
    Contact module, and registering a forcing, a constraint or a callback,
    when it mixes in their module (these three modelled from the spec),
    raise (AttributeError once the entity arguments resolve, because the
    finalize method of the module has deleted its list of pending
    declarations) and change neither the systems nor a feature group; and
    a second [finalize] raises AssertionError and changes nothing.  Adding
    an entity does not fail: [insert], [append] and index assignment of a
    system that passes the type check are carried out as before finalize,
    since they do not look at the finalize flag. *)
Theorem post_finalize_features_rejected_entities_accepted
        (ops : list FinalizeOperator) (r r' : Sim) :
  finalize r = (Return tt, r') ->
  _feature_group_finalize r = Some ops ->
  (In FinalizeContact ops ->
   forall first second,
      exists e now,
        detect_contact_between first second r' = (Raise e, now)
        /\ _systems now = _systems r'
        /\ _feature_group_synchronize now = _feature_group_synchronize r'
        /\ _contacts now = None
        /\ _finalize_flag now = true
        /\ (forall i j,
              _get_sys_idx_if_valid first r' = (Return i, r') ->
              _get_sys_idx_if_valid second r' = (Return j, r') ->
              e = AttributeError))
  /\ (forall module,
        In (FinalizeFeature module) ops ->
        forall system,
          exists e now,
            declare_feature module system r' = (Raise e, now)
            /\ _systems now = _systems r'
            /\ _feature_group_synchronize now = _feature_group_synchronize r'
            /\ _feature_group_constrain_values now = _feature_group_constrain_values r'
            /\ _feature_group_constrain_rates now = _feature_group_constrain_rates r'
            /\ _feature_group_callback now = _feature_group_callback r'
            /\ pending module now = None
            /\ _finalize_flag now = true
            /\ (forall i, _get_sys_idx_if_valid system r' = (Return i, r') ->
                          e = AttributeError))
  /\ finalize r' = (Raise AssertionError, r')
  /\ (forall idx system,
        _check_type system r' = (Return true, r') ->
        insert idx system r'
        = (Return tt, set_systems (list_insert (_systems r') idx system) r'))
  /\ (forall system,
        _check_type system r' = (Return true, r') ->
        append system r' = (Return tt, set_systems (_systems r' ++ [system]) r'))
  /\ (forall idx system l,
        _check_type system r' = (Return true, r') ->
        setitem (_systems r') idx system = Some l ->
        __setitem__ idx system r' = (Return tt, set_systems l r')).
Proof.
  intros E Hops.
  pose proof (finalize_sets_flag r E) as Hf.
  split; [| split; [| split; [| split; [| split]]]].
  - intros Hin first second.
    pose proof (@finalize_deletes ops FinalizeContact r r' E Hops Hin) as Hc.
    cbn [deleted_by] in Hc.
    destruct (detect_contact_between_without_contacts first second r' Hc)
      as (e & now & E' & H1 & H2 & H3 & H4 & H5).
    exists e, now. rewrite H4, Hf. auto 10.
  - intros module Hin system.
    pose proof (@finalize_deletes ops (FinalizeFeature module) r r' E Hops Hin) as Hp.
    cbn [deleted_by] in Hp.
    destruct (declare_feature_without_pending module system r' Hp)
      as (e & now & E' & H1 & H2 & H3 & H4 & H5 & H6 & H7 & H8).
    exists e, now. rewrite H7, Hf. auto 12.
  - unfold finalize, bind, get, assert. now rewrite Hf.
  - intros idx system Hty. unfold insert, bind. now rewrite Hty.
  - intros system Hty. unfold append, __len__, insert, bind. cbn [get ret].
    rewrite Hty. cbn [get modify]. now rewrite list_insert_end.
  - intros idx system l Hty Hset. unfold __setitem__, bind. rewrite Hty.
    cbn [get]. now rewrite Hset.
Qed.

(** *** Finalize with a declaration that has no contact class *)

Lemma for_each_app_Return (A : Type) (l1 l2 : list A) (f : A -> M Sim unit)
      (r r1 : Sim) :
  for_each l1 f r = (Return tt, r1) ->
  for_each (l1 ++ l2) f r = for_each l2 f r1.
Proof.
  revert r. induction l1 as [| x l1 IH]; intros r E.
  - now injection E as <-.
  - cbn [for_each app] in *. apply bind_Return in E as ([] & r0 & E0 & E).
    unfold bind at 1. rewrite E0. now apply IH.
Qed.

(** C5 (amended).  If a pending contact declaration has no contact class
    when [finalize] runs, [finalize] raises; the finalize flag stays
    false, and the finalize group and the pending contact declarations
    are kept.  But what [finalize] did before the error stays done: the
    blocks have been constructed and stored, the blocks appended so far
    stay in the systems, and no operator has left the synchronize group.
    When everything before the declaration goes through, that is the
    blocks are appended, the finalize methods that precede
    [_finalize_contact] in the finalize group return, and the pending
    declarations before this one are materialized, then the error is the
    construction error RuntimeError, raised in the state reached by these
    steps: all blocks are appended to the systems, and the operator of
    every earlier declaration is in the synchronize group. *)
Theorem finalize_without_using_raises
        (ops : list FinalizeOperator) (cs : list nat) (h : nat) (c : _Contact)
        (r : Sim) :
  _finalize_flag r = false ->
  _feature_group_finalize r = Some ops ->
  In FinalizeContact ops ->
  _contacts r = Some cs ->
  In h cs ->
  nth_error (contact_objects r) h = Some c ->
  _contact_cls c = None ->
  let blocks := construct_memory_block_structures (_systems r) in
  (exists e r',
      finalize r = (Raise e, r')
      /\ _finalize_flag r' = false
      /\ _feature_group_finalize r' = Some ops
      /\ _contacts r' = Some cs
      /\ _memory_blocks r' = blocks
      /\ (exists k, _systems r' = _systems r ++ firstn k blocks)
      /\ synchronize_grows r r')
  /\ (forall first_methods later_methods before after r1 r2 r3,
        ops = first_methods ++ FinalizeContact :: later_methods ->
        cs = before ++ h :: after ->
        for_each blocks append (set_memory_blocks blocks r) = (Return tt, r1) ->
        for_each first_methods call_finalize r1 = (Return tt, r2) ->
        for_each before _finalize_one_contact r2 = (Return tt, r3) ->
        finalize r = (Raise RuntimeError, r3)
        /\ _systems r3 = _systems r ++ blocks
        /\ (forall h' c',
              In h' before ->
              nth_error (contact_objects r) h' = Some c' ->
              exists inst,
                instantiate c' = Return inst
                /\ In (ContactOperator inst SystemsList
                                       (first_sys_idx c') (second_sys_idx c'))
                      (operators (_feature_group_synchronize r3)))).
Proof.
  intros Hflag Hops Hin Hcs Hh Hc Hcls blocks.
  assert (Hrun : finalize r
                 = bind (for_each blocks append)
                        (fun _ =>
                           self <- get ;;
                           match _feature_group_finalize self with
                           | None => raise TypeError
                           | Some ops =>
                               for_each ops call_finalize ;;
                               modify (set_finalize_group None) ;;
                               modify (set_finalize_flag true)
                           end)
                        (set_memory_blocks blocks r)).
  { unfold finalize. rewrite bind_get, bind_assert, Hflag. cbn [negb].
    rewrite bind_modify, bind_get. reflexivity. }
  split.
  - rewrite Hrun. unfold bind at 1.
    destruct (for_each blocks append (set_memory_blocks blocks r))
      as [[[] | e] r1] eqn:E1;
      pose proof (@preserves_for_each _ setup_frame _ _ blocks append
                    append_setup_frame _ _ _ E1)
        as (_ & _ & F1 & F2 & F3 & F4 & F5);
      pose proof (@preserves_for_each _ synchronize_grows _ _ blocks append
                    append_synchronize_grows _ _ _ E1) as G1;
      pose proof (appended_prefix _ _ E1) as (k & Hk);
      cbn [set_memory_blocks _finalize_flag _feature_group_finalize
           _memory_blocks _contacts contact_objects _systems] in F1, F2, F3, F4, F5, Hk.
    + cbv beta. unfold bind at 1. unfold get at 1. cbv beta iota.
      rewrite F2, Hops.
      destruct (@finalize_group_raises ops cs h c r1) as (e & r' & E2 & F);
        try congruence.
      pose proof (finalize_group_synchronize_grows ops _ E2) as G2.
      pose proof (finalize_group_same_systems ops _ E2) as S2.
      destruct F as (_ & _ & H1 & H2 & H3 & H4 & _).
      exists e, r'.
      split; [apply bind_Raise; exact E2 |].
      repeat split; try congruence.
      * exists k. congruence.
      * intros op Hop. apply G2, G1. exact Hop.
    + exists e, r1. repeat split; try congruence.
      * exists k. congruence.
      * exact G1.
  - intros first_methods later_methods before after r1 r2 r3 -> -> E1 E2 E3.
    pose proof (@preserves_for_each _ setup_frame _ _ blocks append
                  append_setup_frame _ _ _ E1)
      as (_ & _ & F1 & F2 & F3 & F4 & F5).
    cbn [set_memory_blocks _finalize_flag _feature_group_finalize
         _memory_blocks _contacts contact_objects] in F1, F2, F3, F4, F5.
    assert (Hnot : ~ In FinalizeContact first_methods).
    { intros Hin'.
      destruct (@finalize_group_raises first_methods (before ++ h :: after) h c r1)
        as (e & r' & E' & _); try congruence. }
    pose proof (feature_methods_setup_frame first_methods Hnot r1 E2)
      as (_ & _ & _ & _ & _ & K1 & K2).
    pose proof (contacts_loop_setup_frame before _ E3)
      as (_ & _ & _ & _ & _ & _ & K3).
    pose proof (contacts_loop_systems before _ E3) as S3.
    pose proof (finalize_group_same_systems first_methods _ E2) as S2.
    cbv beta in S2, S3.
    split; [| split].
    + rewrite Hrun. unfold bind at 1. rewrite E1. cbv beta iota.
      rewrite bind_get, F2, Hops. apply bind_Raise.
      rewrite (@for_each_app_Return _ first_methods (FinalizeContact :: later_methods)
                 call_finalize r1 r2 E2).
      cbn [for_each call_finalize].
      apply bind_Raise.
      unfold _finalize_contact. rewrite bind_get, K1, F4, Hcs.
      apply bind_Raise.
      rewrite (@for_each_app_Return _ before (h :: after)
                 _finalize_one_contact r2 r3 E3).
      cbn [for_each]. apply bind_Raise.
      apply _finalize_one_contact_without_using with (c := c); congruence.
    + apply appended_systems in E1. cbn [_systems set_memory_blocks] in E1.
      congruence.
    + intros h' c' Hh' Hc'.
      apply (@contacts_loop_adds before r2 r3 E3 h' c' Hh'). congruence.
Qed.

(** *** The operator of a contact *)

(** C10.  When [finalize] succeeds, every pending contact declaration
    has been instantiated and the synchronize group holds its operator,
    which carries the instance, a reference to the list of systems, and
    the two integer indices of the declaration, and no system object.
    Called on any later state of the registry, the operator looks up both
    indices in the list as it is then and applies the contact to the
    systems found there (IndexError if an index is out of range).  In
    particular, once the first index has been assigned another system,
    the operator applies the contact to that system. *)
Theorem contact_operator_reads_live_systems
        (ops : list FinalizeOperator) (cs : list nat) (h : nat) (c : _Contact)
        (r r' : Sim) :
  finalize r = (Return tt, r') ->
  _feature_group_finalize r = Some ops ->
  In FinalizeContact ops ->
  _contacts r = Some cs ->
  In h cs ->
  nth_error (contact_objects r) h = Some c ->
  exists inst,
    let func := ContactOperator inst SystemsList (first_sys_idx c) (second_sys_idx c) in
    instantiate c = Return inst
    /\ In func (operators (_feature_group_synchronize r'))
    /\ (forall (now : Sim) (time : T) (state : H),
          call_operator now func time state
          = match getitem (_systems now) (first_sys_idx c),
                  getitem (_systems now) (second_sys_idx c) with
            | Some system_one, Some system_two =>
                apply_contact inst system_one system_two state
            | _, _ => (Raise IndexError, state)
            end)
    /\ (forall (system : SysObj) (now : Sim) (time : T) (state : H),
          __setitem__ (first_sys_idx c) system r' = (Return tt, now) ->
          In func (operators (_feature_group_synchronize now))
          /\ call_operator now func time state
             = match getitem (_systems now) (second_sys_idx c) with
               | Some system_two => apply_contact inst system system_two state
               | None => (Raise IndexError, state)
               end).
Proof.
  intros E Hops Hin Hcs Hh Hc.
  destruct (finalize_returns r E Hops) as (r1 & r2 & E1 & E2 & ->).
  pose proof (@preserves_for_each _ setup_frame _ _ _ append
                append_setup_frame _ _ _ E1)
    as (_ & _ & _ & _ & _ & F4 & F5).
  cbn [set_memory_blocks _contacts contact_objects] in F4, F5.
  destruct (@finalize_group_adds ops cs h c r1 r2 E2 Hin) as (inst & Hi & Hop);
    [congruence | exact Hh | congruence |].
  exists inst. cbv zeta.
  split; [exact Hi |]. split; [exact Hop |]. split.
  - intros now time state. cbn [call_operator deref].
    destruct (getitem (_systems now) (first_sys_idx c));
      destruct (getitem (_systems now) (second_sys_idx c)); reflexivity.
  - intros system now time state Eset.
    unfold __setitem__ in Eset.
    apply bind_Return in Eset as (? & r4 & E0 & Eset).
    apply pure__check_type in E0 as ->. rewrite bind_get in Eset.
    destruct (setitem _ _ _) as [l |] eqn:El; [| discriminate Eset].
    injection Eset as <-. split; [exact Hop |].
    cbn [call_operator deref _systems set_systems].
    rewrite (getitem_setitem _ _ _ El).
    destruct (getitem l (second_sys_idx c)); reflexivity.
Qed.

End RegistryFacts.

(** ** The theorems on the two rods *)

Section OnTwoRods.

Import Registry.
#[local] Existing Instance PointMass.collaborators.
#[local] Existing Instance PointMass.blocks.

Local Abbreviation Sim := (Simulator (T := Q) (H := PointMass.World Q)).

Lemma index_resolution_returns_index_unchanged_witness :
  let r : Sim := Scenario.two_rods Q in
  length (_systems r) = 2%nat
  /\ ((-2 <= -1 < 2)%Z /\ _get_sys_idx_if_valid (ByIndex (-1)) r = (Return (-1)%Z, r))
  /\ ((-2 <= -1 < 0)%Z
      /\ fst (_get_sys_idx_if_valid (ByIndex (-1)) r) <> Return (2 + -1)%Z)
  /\ (~ (-2 <= 2 < 2)%Z
      /\ _get_sys_idx_if_valid (ByIndex 2) r = (Raise AssertionError, r)).
Proof.
  intros r. split; [reflexivity |].
  assert (H1 : (-2 <= -1 < 2)%Z) by lia.
  assert (H2 : (-2 <= -1 < 0)%Z) by lia.
  assert (H3 : ~ (-2 <= 2 < 2)%Z) by lia.
  split; [split; [exact H1 |] | split; [split; [exact H2 |] | split; [exact H3 |]]].
  - exact (proj1 (index_resolution_returns_index_unchanged r (-1)) H1).
  - exact (proj1 (proj2 (index_resolution_returns_index_unchanged r (-1))) H2).
  - exact (proj2 (proj2 (index_resolution_returns_index_unchanged r 2)) H3).
Defined.

Lemma finalize_twice_raises_witness :
  let r : Sim := Scenario.two_rods Q in
  let r' : Sim := Scenario.two_rods_finalized Q in
  finalize r = (Return tt, r')
  /\ finalize r' = (Raise AssertionError, r').
Proof.
  intros r r'.
  assert (E : finalize r = (Return tt, r')) by (vm_compute; reflexivity).
  split; [exact E | exact (finalize_twice_raises r E)].
Defined.


(** The claim C4 as the specification states it fails on the two rods:
    after the finalize that succeeded, [append], [insert] and index
    assignment of a third rod all return, and the rod is in the
    sequence. *)
Lemma post_finalize_entity_accepted :
  let r : Sim := Scenario.two_rods_finalized Q in
  let rod3 := Scenario.rod 3 in
  finalize (Scenario.two_rods Q) = (Return tt, r)
  /\ fst (append rod3 r) = Return tt
  /\ _systems (snd (append rod3 r)) = _systems r ++ [rod3]
  /\ fst (insert 0 rod3 r) = Return tt
  /\ _systems (snd (insert 0 rod3 r)) = rod3 :: _systems r
  /\ fst (__setitem__ 0 rod3 r) = Return tt
  /\ getitem (_systems (snd (__setitem__ 0 rod3 r))) 0 = Some rod3.
Proof. vm_compute. repeat split. Qed.

Lemma post_finalize_features_rejected_entities_accepted_witness :
  let r : Sim := Scenario.all_features Q in
  let r' : Sim := Scenario.all_features_finalized Q in
  let ops := [FinalizeFeature CallBacks; FinalizeContact;
              FinalizeFeature Forcing; FinalizeFeature Constraints] in
  let rod3 := Scenario.rod 3 in
  finalize r = (Return tt, r')
  /\ _feature_group_finalize r = Some ops
  /\ fst (detect_contact_between (ByIndex 0) (ByIndex 1) r') = Raise AttributeError
  /\ fst (add_forcing_to (ByIndex 0) r') = Raise AttributeError
  /\ fst (constrain (ByIndex 0) r') = Raise AttributeError
  /\ fst (callback_of (ByIndex 1) r') = Raise AttributeError
  /\ finalize r' = (Raise AssertionError, r')
  /\ (_check_type rod3 r' = (Return true, r')
      /\ append rod3 r' = (Return tt, set_systems (_systems r' ++ [rod3]) r')).
Proof.
  intros r r' ops rod3.
  assert (E : finalize r = (Return tt, r')) by (vm_compute; reflexivity).
  assert (Hops : _feature_group_finalize r = Some ops) by (vm_compute; reflexivity).
  assert (Hty : _check_type rod3 r' = (Return true, r')) by (vm_compute; reflexivity).
  assert (H0 : _get_sys_idx_if_valid (ByIndex 0) r' = (Return 0%Z, r'))
    by (vm_compute; reflexivity).
  assert (H1 : _get_sys_idx_if_valid (ByIndex 1) r' = (Return 1%Z, r'))
    by (vm_compute; reflexivity).
  pose proof (@post_finalize_features_rejected_entities_accepted _ _ _ ops r r' E Hops)
    as (Hdetect & Hfeature & Hagain & _ & Happend & _).
  split; [exact E |]. split; [exact Hops |].
  split.
  { destruct (Hdetect (or_intror (or_introl eq_refl)) (ByIndex 0) (ByIndex 1))
      as (e & now & E' & _ & _ & _ & _ & He).
    rewrite E'. cbn [fst]. f_equal. exact (He _ _ H0 H1). }
  split.
  { destruct (Hfeature Forcing (or_intror (or_intror (or_introl eq_refl))) (ByIndex 0))
      as (e & now & E' & _ & _ & _ & _ & _ & _ & _ & He).
    unfold add_forcing_to. rewrite E'. cbn [fst]. f_equal. exact (He _ H0). }
  split.
  { destruct (Hfeature Constraints
                (or_intror (or_intror (or_intror (or_introl eq_refl)))) (ByIndex 0))
      as (e & now & E' & _ & _ & _ & _ & _ & _ & _ & He).
    unfold constrain. rewrite E'. cbn [fst]. f_equal. exact (He _ H0). }
  split.
  { destruct (Hfeature CallBacks (or_introl eq_refl) (ByIndex 1))
      as (e & now & E' & _ & _ & _ & _ & _ & _ & _ & He).
    unfold callback_of. rewrite E'. cbn [fst]. f_equal. exact (He _ H1). }
  split; [exact Hagain |].
  split; [exact Hty | exact (Happend rod3 Hty)].
Defined.

(** The claim C5 as the specification states it fails on two rods whose
    second declaration has no contact class: [finalize] raises the
    construction error, but it has stored the block, appended it to the
    systems, and put the operator of the first declaration into the
    synchronize group. *)
Lemma finalize_without_using_is_partial :
  let r : Sim := Scenario.second_without_using Q in
  let r' : Sim := snd (finalize r) in
  fst (finalize r) = Raise RuntimeError
  /\ length (_systems r) = 2%nat /\ length (_systems r') = 3%nat
  /\ _memory_blocks r = [] /\ length (_memory_blocks r') = 1%nat
  /\ operators (_feature_group_synchronize r) = []
  /\ operators (_feature_group_synchronize r')
     = [ContactOperator (lit 5 (-1)) SystemsList 0 1]
  /\ r' <> r.
Proof.
  vm_compute. repeat split. intros E. discriminate E.
Qed.

Lemma finalize_without_using_raises_witness :
  let r : Sim := Scenario.second_without_using Q in
  let c : _Contact := _Contact_new 1 0 in
  let c0 : _Contact :=
    {| first_sys_idx := 0; second_sys_idx := 1;
       _contact_cls := Some NoContact; _args := Some (lit 5 (-1)) |} in
  let blocks := construct_memory_block_structures (_systems r) in
  let r1 : Sim := snd (for_each blocks append (set_memory_blocks blocks r)) in
  let r3 : Sim := snd (for_each [0%nat] _finalize_one_contact r1) in
  (_finalize_flag r = false
   /\ _feature_group_finalize r = Some [FinalizeContact]
   /\ In FinalizeContact [FinalizeContact]
   /\ _contacts r = Some [0%nat; 1%nat]
   /\ In 1%nat [0%nat; 1%nat]
   /\ nth_error (contact_objects r) 1 = Some c
   /\ _contact_cls c = None)
  /\ ([FinalizeContact] = [] ++ FinalizeContact :: []
      /\ [0%nat; 1%nat] = [0%nat] ++ 1%nat :: []
      /\ for_each blocks append (set_memory_blocks blocks r) = (Return tt, r1)
      /\ for_each [] call_finalize r1 = (Return tt, r1)
      /\ for_each [0%nat] _finalize_one_contact r1 = (Return tt, r3)
      /\ nth_error (contact_objects r) 0 = Some c0)
  /\ finalize r = (Raise RuntimeError, r3)
  /\ _finalize_flag r3 = false
  /\ _feature_group_finalize r3 = Some [FinalizeContact]
  /\ _contacts r3 = Some [0%nat; 1%nat]
  /\ _memory_blocks r3 = blocks
  /\ _systems r3 = _systems r ++ blocks
  /\ exists inst,
      instantiate c0 = Return inst
      /\ In (ContactOperator inst SystemsList 0 1)
            (operators (_feature_group_synchronize r3)).
Proof.
  intros r c c0 blocks r1 r3.
  assert (H1 : _finalize_flag r = false) by (vm_compute; reflexivity).
  assert (H2 : _feature_group_finalize r = Some [FinalizeContact]) by (vm_compute; reflexivity).
  assert (H3 : In FinalizeContact [FinalizeContact]) by (left; reflexivity).
  assert (H4 : _contacts r = Some [0%nat; 1%nat]) by (vm_compute; reflexivity).
  assert (H5 : In 1%nat [0%nat; 1%nat]) by (right; left; reflexivity).
  assert (H6 : nth_error (contact_objects r) 1 = Some c) by (vm_compute; reflexivity).
  assert (H7 : _contact_cls c = None) by (vm_compute; reflexivity).
  assert (K1 : [FinalizeContact] = [] ++ @FinalizeContact :: []) by reflexivity.
  assert (K2 : [0%nat; 1%nat] = [0%nat] ++ 1%nat :: []) by reflexivity.
  assert (K3 : for_each blocks append (set_memory_blocks blocks r) = (Return tt, r1))
    by (vm_compute; reflexivity).
  assert (K4 : for_each [] call_finalize r1 = (Return tt, r1)) by reflexivity.
  assert (K5 : for_each [0%nat] _finalize_one_contact r1 = (Return tt, r3))
    by (vm_compute; reflexivity).
  assert (K6 : nth_error (contact_objects r) 0 = Some c0) by (vm_compute; reflexivity).
  pose proof (@finalize_without_using_raises _ _ _ _ _ 1%nat c r
                H1 H2 H3 H4 H5 H6 H7) as (Hraises & Hexact).
  destruct (Hexact [] [] [0%nat] [] r1 r1 r3 K1 K2 K3 K4 K5) as (E & Hsys & Hops).
  destruct Hraises as (e & r' & E' & F1 & F2 & F3 & F4 & _).
  assert (r' = r3) as -> by congruence.
  split; [repeat split; assumption |].
  split; [repeat split; assumption |].
  repeat (split; [assumption |]).
  exact (Hops 0%nat c0 (or_introl eq_refl) K6).
Defined.


Lemma contact_operator_reads_live_systems_witness :
  let r : Sim := Scenario.two_rods Q in
  let r' : Sim := Scenario.two_rods_finalized Q in
  let c : _Contact :=
    {| first_sys_idx := 0; second_sys_idx := 1;
       _contact_cls := Some NoContact; _args := Some (lit 5 (-1)) |} in
  finalize r = (Return tt, r')
  /\ _feature_group_finalize r = Some [FinalizeContact]
  /\ In FinalizeContact [FinalizeContact]
  /\ _contacts r = Some [0%nat]
  /\ In 0%nat [0%nat]
  /\ nth_error (contact_objects r) 0 = Some c
  /\ exists inst,
      let func := ContactOperator inst SystemsList 0 1 in
      instantiate c = Return inst
      /\ In func (operators (_feature_group_synchronize r'))
      /\ (forall (now : Sim) (time : Q) (state : PointMass.World Q),
            call_operator now func time state
            = match getitem (_systems now) 0, getitem (_systems now) 1 with
              | Some system_one, Some system_two =>
                  apply_contact inst system_one system_two state
              | _, _ => (Raise IndexError, state)
              end)
      /\ (forall (system : SysObj) (now : Sim) (time : Q)
                 (state : PointMass.World Q),
            __setitem__ 0 system r' = (Return tt, now) ->
            In func (operators (_feature_group_synchronize now))
            /\ call_operator now func time state
               = match getitem (_systems now) 1 with
                 | Some system_two => apply_contact inst system system_two state
                 | None => (Raise IndexError, state)
                 end).
Proof.
  intros r r' c.
  assert (H1 : finalize r = (Return tt, r')) by (vm_compute; reflexivity).
  assert (H2 : _feature_group_finalize r = Some [FinalizeContact]) by (vm_compute; reflexivity).
  assert (H3 : In FinalizeContact [FinalizeContact]) by (left; reflexivity).
  assert (H4 : _contacts r = Some [0%nat]) by (vm_compute; reflexivity).
  assert (H5 : In 0%nat [0%nat]) by (left; reflexivity).
  assert (H6 : nth_error (contact_objects r) 0 = Some c) by (vm_compute; reflexivity).
  repeat (split; [assumption |]).
  exact (@contact_operator_reads_live_systems _ _ _ _ _ 0%nat c r r'
           H1 H2 H3 H4 H5 H6).
Defined.

(** The contact of the two rods was declared on the objects rod 0 and
    rod 1.  After position 0 has been assigned rod 3, [synchronize] adds
    the contact force to rod 3 and to rod 1; rod 0 receives none. *)
Example contact_force_follows_position :
  let now : Sim := Scenario.first_rod_replaced Q in
  getitem (_systems now) 0 = Some (Scenario.rod 3)
  /\ operators (_feature_group_synchronize now)
     = operators (_feature_group_synchronize (Scenario.two_rods_finalized Q))
  /\ fst (synchronize now 0 (Scenario.four_bodies Q)) = Return tt
  /\ map (@PointMass.external_force Q)
         (snd (synchronize now 0 (Scenario.four_bodies Q)))
     = [ lit 0 0;
         add (lit 0 0) (neg (lit 5 (-1)));
         lit 0 0;
         add (lit 0 0) (lit 5 (-1)) ].
Proof. vm_compute. repeat split. Qed.

(** C8.  The warning for a last-only contact algorithm is never logged:
    [warnings] tests [isinstance(contact._contact_cls, NoContact)] on a
    class object, which is false for every class, so it returns without
    logging whatever the position of the declaration.  On two rods with
    two declarations that both use [NoContact], the first declaration is
    not the last of the synchronize group, [finalize] succeeds, and the
    log stays empty. *)
Theorem last_only_warning_never_logged :
  (forall (T H : Type) (Ext : Collaborators T H) (handle : nat)
          (contact : _Contact) (r : Simulator),
      warnings handle contact r = (Return tt, r))
  /\ (let r : Sim := Scenario.two_contacts Q in
      let r' : Sim := snd (finalize r) in
      fst (finalize r) = Return tt
      /\ (exists c, nth_error (contact_objects r) 0 = Some c
                    /\ _contact_cls c = Some NoContact)
      /\ issubclass NoContact NoContact = true
      /\ isinstance_of_class_object NoContact NoContact = false
      /\ is_last (_feature_group_synchronize r) (ContactOwner 0) = false
      /\ is_last (_feature_group_synchronize r') (ContactOwner 0) = false
      /\ length (operators (_feature_group_synchronize r')) = 2%nat
      /\ logged_warnings r' = []).
Proof.
  split.
  - intros T H Ext handle contact r. apply warnings_returns.
  - vm_compute. repeat split. eexists. split; reflexivity.
Qed.

End OnTwoRods.
